(** * dict_server: a key-value store served over a TCP socket

    Shallow embedding of [dict_server.c] (command parser, key-value backend,
    response encoder and the per-message dispatch of the connection loop) and
    the properties of it that the specification states. *)

From stdpp Require Import gmap strings list pretty.
From Equations Require Import Equations.
From Equations.Prop Require Import Logic.
From Stdlib Require Import Ascii ZArith Lia.

Local Open Scope Z_scope.

(** ** C strings

    A [char *] is modelled as [option string]: [None] is the null pointer and
    [Some mem] the bytes found at the address.  The string functions of libc
    see those bytes up to the first NUL. *)

Module CStr.

Definition NUL : ascii := "000"%char.
Definition LF : ascii := "010"%char.

(** The text of the C string stored in [mem]: everything before the first
    NUL byte. *)
Fixpoint c_str (mem : string) : string :=
  match mem with
  | EmptyString => EmptyString
  | String c rest => if Ascii.eqb c NUL then EmptyString else String c (c_str rest)
  end.

(** [strlen(s)] *)
Definition strlen (mem : string) : nat := String.length (c_str mem).

(** Pointer arithmetic [s + n]. *)
Fixpoint skip (n : nat) (s : string) : string :=
  match n, s with
  | O, _ => s
  | S n', String _ rest => skip n' rest
  | S _, EmptyString => EmptyString
  end.

(** The first [n] bytes at [s]. *)
Fixpoint take (n : nat) (s : string) : string :=
  match n, s with
  | S n', String c rest => String c (take n' rest)
  | _, _ => EmptyString
  end.

(** [n] NUL bytes: a zero-initialised [char] array. *)
Fixpoint zeros (n : nat) : string :=
  match n with
  | O => EmptyString
  | S n' => String NUL (zeros n')
  end.

(** The array of a string literal: its characters and the terminating NUL;
    [sizeof] of the literal is the size of that array. *)
Definition literal (s : string) : string := s +:+ String NUL EmptyString.
Definition sizeof_literal (s : string) : nat := S (String.length s).

(** [strstr(haystack, needle)]: offset of the first occurrence of [needle],
    [None] for the null pointer returned when there is none. *)
Fixpoint strstr (haystack needle : string) : option nat :=
  if String.prefix needle haystack then Some O
  else match haystack with
       | EmptyString => None
       | String _ rest => S <$> strstr rest needle
       end.

(** Membership of a character in a delimiter set (libc's [strchr] on it). *)
Fixpoint is_delim (delim : string) (c : ascii) : bool :=
  match delim with
  | EmptyString => false
  | String d rest => Ascii.eqb c d || is_delim rest c
  end.

(** [strspn(s, delim)]: length of the leading run of delimiters. *)
Fixpoint strspn (s delim : string) : nat :=
  match s with
  | EmptyString => O
  | String c rest => if is_delim delim c then S (strspn rest delim) else O
  end.

(** [strcspn(s, delim)]: length of the leading run of non-delimiters. *)
Fixpoint strcspn (s delim : string) : nat :=
  match s with
  | EmptyString => O
  | String c rest => if is_delim delim c then O else S (strcspn rest delim)
  end.

(** [strtok_r(s, delim, &save)] on the text at [s]: the token returned
    ([None] for the null pointer) and the new value of [save].  The NUL that
    libc writes over the delimiter ending the token is what makes the token
    returned a C string of its own; here the token is returned as that
    string. *)
Definition strtok_r (s delim : string) : option string * string :=
  let s1 := skip (strspn s delim) s in
  match s1 with
  | EmptyString => (None, s1)
  | String _ _ =>
      let n := strcspn s1 delim in
      (Some (take n s1), skip (S n) s1)
  end.

End CStr.

Import CStr.

(** ** Private data types of the server *)

Definition SERVER_BUFFER_SIZE : nat := 128.
Definition SERVER_MAX_ARGS : nat := 2.
Definition SERVER_GET_OP_STRING : string := "GET".
Definition SERVER_SET_OP_STRING : string := "SET".
Definition SERVER_DEL_OP_STRING : string := "DEL".
Definition SERVER_OK_RESPONSE : string := "OK" +:+ String LF EmptyString.
Definition SERVER_NOTFOUND_RESPONSE : string := "NOTFOUND" +:+ String LF EmptyString.

Inductive server_op : Set :=
| SERVER_OP_NONE
| SERVER_OP_SET
| SERVER_OP_GET
| SERVER_OP_DEL.

Inductive server_err_t : Set :=
| SERVER_OK
| SERVER_E_OS
| SERVER_E_NULL
| SERVER_E_SIZE
| SERVER_E_BUFFER
| SERVER_E_INVALID
| SERVER_E_MISSING
| SERVER_E_TOO_MANY
| SERVER_E_NOT_FOUND.

#[global] Instance server_op_eq_dec : EqDecision server_op.
Proof. solve_decision. Defined.

#[global] Instance server_err_eq_dec : EqDecision server_err_t.
Proof. solve_decision. Defined.

(** The numeric value of the enumerators, as [sprintf("%d")] prints them. *)
Definition err_code (e : server_err_t) : Z :=
  match e with
  | SERVER_OK => 0
  | SERVER_E_OS => 1
  | SERVER_E_NULL => 2
  | SERVER_E_SIZE => 3
  | SERVER_E_BUFFER => 4
  | SERVER_E_INVALID => 5
  | SERVER_E_MISSING => 6
  | SERVER_E_TOO_MANY => 7
  | SERVER_E_NOT_FOUND => 8
  end.

(** [server_op_t]: the operation and the array [args[SERVER_MAX_ARGS]] of
    [char *]. *)
Record server_op_t : Set := mk_server_op_t {
  op : server_op;
  args : list (option string);
}.

(** The digest after [memset] has zeroed it. *)
Definition digest_zero : server_op_t :=
  {| op := SERVER_OP_NONE; args := replicate SERVER_MAX_ARGS None |}.

(** [digest->args[i]] read as a pointer; a slot holding NULL and a slot that
    does not exist both give [None]. *)
Definition arg (d : server_op_t) (i : nat) : option string :=
  default None (args d !! i).

(** ** Command parser *)

(** [int] compared with the [size_t] that [sizeof] yields: the usual
    arithmetic conversions take the [int] to [size_t] (64 bits), modulo 2^64. *)
Definition to_size_t (z : Z) : Z := z mod 2 ^ 64.

(** What a call of [server_op_check] leaves behind: the value returned, the
    object [digest] points to ([None] when [digest] is the null pointer), and
    the stores [digest->args[i] = token] whose index [i] lies outside the
    array, in the order they were made. *)
Record check_out : Type := mk_check_out {
  ret : server_err_t;
  digest_out : option server_op_t;
  overrun : list (nat * string);
}.

(** The assignment [digest->op = k]. *)
Definition set_op (k : server_op) (d : server_op_t) : server_op_t :=
  {| op := k; args := args d |}.

(** The assignment [digest->args[i] = token].  The array has
    [SERVER_MAX_ARGS] slots; a store at a larger index does not change it and
    is recorded in the overrun log.  C gives no meaning to what follows such
    a store; the model goes on as the compiled function does when the memory
    after the array holds none of the variables it reads. *)
Definition store_arg (i : nat) (token : string)
    (st : server_op_t * list (nat * string)) : server_op_t * list (nat * string) :=
  let '(d, over) := st in
  if decide (i < SERVER_MAX_ARGS)%nat
  then ({| op := op d; args := <[i := Some token]> (args d) |}, over)
  else (d, over ++ [(i, token)]).

(** One of the three keyword probes: when no operation has been found yet,
    look for [keyword] in the buffer and record [k] if it is there. *)
Definition probe (keyword : string) (k : server_op) (text : string)
    (d : server_op_t) : server_op_t :=
  if decide (op d = SERVER_OP_NONE)
  then match strstr text keyword with
       | Some _ => set_op k d
       | None => d
       end
  else d.

Definition delim : string := String " "%char (String LF EmptyString).

Lemma skip_length n s : (String.length (skip n s) <= String.length s)%nat.
Proof.
  revert s; induction n as [|n IH]; intros [|c s]; simpl; try lia.
  specialize (IH s); lia.
Qed.

Lemma strtok_r_shorter s dl token rest :
  strtok_r s dl = (Some token, rest) →
  (String.length rest < String.length s)%nat.
Proof.
  unfold strtok_r.
  pose proof (skip_length (strspn s dl) s) as Hs.
  destruct (skip (strspn s dl) s) as [|c s1] eqn:E; [discriminate|].
  intros [= _ <-].
  change (skip (S ?n) (String c s1)) with (skip n s1).
  cbn [String.length] in Hs.
  eapply Nat.le_lt_trans; [apply skip_length | lia].
Qed.

(** The loop [while ((token = strtok_r(temp, delim, &temp)))]: it returns
    [Some SERVER_E_TOO_MANY] when the body returns from the function, [None]
    when the loop ends, together with [op_args], the digest and the overrun
    log at that point. *)
Equations? args_loop (temp : string) (op_args : nat)
    (st : server_op_t * list (nat * string))
    : option server_err_t * nat * (server_op_t * list (nat * string))
    by wf (String.length temp) lt :=
  args_loop temp op_args st with inspect (strtok_r temp delim) := {
    | exist _ (None, _) _ => (None, op_args, st)
    | exist _ (Some token, temp') Htok =>
        if decide (SERVER_MAX_ARGS < op_args)%nat
        then (Some SERVER_E_TOO_MANY, op_args, st)
        else args_loop temp' (S op_args) (store_arg op_args token st) }.
Proof. eapply strtok_r_shorter; eassumption. Qed.

Definition server_op_check (buffer : option string) (length : Z)
    (digest : option server_op_t) : check_out :=
  if to_size_t length <? Z.of_nat (sizeof_literal SERVER_GET_OP_STRING)
  then mk_check_out SERVER_E_SIZE digest []
  else
    match buffer with
    | None => mk_check_out SERVER_E_NULL digest []
    | Some mem =>
      if length =? 0 then mk_check_out SERVER_E_NULL digest []
      else
        match digest with
        | None => mk_check_out SERVER_E_NULL None []
        | Some _ =>
          let text := c_str mem in
          let d := digest_zero in
          let d := probe SERVER_GET_OP_STRING SERVER_OP_GET text d in
          let d := probe SERVER_SET_OP_STRING SERVER_OP_SET text d in
          let d := probe SERVER_DEL_OP_STRING SERVER_OP_DEL text d in
          if decide (op d = SERVER_OP_NONE)
          then mk_check_out SERVER_E_INVALID (Some d) []
          else
            let '(_, temp) := strtok_r text delim in
            match args_loop temp O (d, []) with
            | (Some e, _, (d, over)) => mk_check_out e (Some d) over
            | (None, op_args, (d, over)) =>
              if decide (op d = SERVER_OP_SET ∧ op_args ≠ SERVER_MAX_ARGS)
              then mk_check_out SERVER_E_MISSING (Some d) over
              else if decide ((op d = SERVER_OP_GET ∨ op d = SERVER_OP_DEL)
                              ∧ op_args ≠ 1%nat)
              then mk_check_out SERVER_E_MISSING (Some d) over
              else mk_check_out SERVER_OK (Some d) over
            end
        end
    end.

(** ** The operating system at the server's boundary

    Files, descriptors and the client socket, with the outcomes the calls can
    have.  A computation is a function of the state of the system; it yields
    [None] where the C program has no defined behaviour (a null pointer handed
    to [strlen], an access outside an array).

    A persistence unit is the file that a path names, and [files] records it
    under the path string handed to [open] and [remove], as written: paths
    are not resolved.  Two strings that the system takes to one file ([x] and
    [./x]) are two entries here, so [files] tells what a call does to the
    unit of the path it is given and nothing about the units of other
    paths. *)

Module OS.

Inductive open_flags : Set :=
| O_RDONLY
| O_WRONLY_CREAT_TRUNC.

Record open_file : Set := mk_open_file {
  of_path : string;
  of_offset : nat;
  of_flags : open_flags;
}.

(** What the system may do to a call for reasons of its own (permissions, a
    full disk, a peer that went away): [open] and [remove] refused for a path,
    and the value [write], [read] and [send] return when [n] bytes could be
    transferred: [n], a smaller count, or a negative value for an error. *)
Record faults : Type := mk_faults {
  open_fails : string → bool;
  remove_fails : string → bool;
  write_result : Z → Z;
  read_result : Z → Z;
  send_result : Z → Z;
}.

Definition no_faults : faults :=
  {| open_fails := λ _, false;
     remove_fails := λ _, false;
     write_result := λ n, n;
     read_result := λ n, n;
     send_result := λ n, n |}.

Record state : Type := mk_state {
  files : gmap string string;   (* one persistence unit per key *)
  fds : gmap Z open_file;       (* open descriptors *)
  sent : list (Z * string);     (* bytes accepted by [send], per call *)
  plan : faults;
}.

Definition set_files (f : gmap string string) (s : state) : state :=
  {| files := f; fds := fds s; sent := sent s; plan := plan s |}.
Definition set_fds (t : gmap Z open_file) (s : state) : state :=
  {| files := files s; fds := t; sent := sent s; plan := plan s |}.
Definition set_sent (l : list (Z * string)) (s : state) : state :=
  {| files := files s; fds := fds s; sent := l; plan := plan s |}.

Definition boot (p : faults) : state :=
  {| files := ∅; fds := ∅; sent := []; plan := p |}.

End OS.

Definition Sys (A : Type) : Type := OS.state → option (A * OS.state).

#[global] Instance Sys_ret : MRet Sys := λ A a s, Some (a, s).
#[global] Instance Sys_bind : MBind Sys :=
  λ A B f m s, match m s with
               | Some (a, s') => f a s'
               | None => None
               end.

Definition undefined {A : Type} : Sys A := λ _, None.

(** The lowest descriptor not in use, from 3 on. *)
Fixpoint lowest_free (t : gmap Z OS.open_file) (fuel : nat) (fd : Z) : Z :=
  match fuel with
  | O => fd
  | S fuel' => match t !! fd with
               | None => fd
               | Some _ => lowest_free t fuel' (fd + 1)
               end
  end.

(** [open(path, flags)]: the descriptor, or -1. *)
Definition sys_open (path : option string) (flags : OS.open_flags) : Sys Z := λ s,
  match path with
  | None => Some (-1, s)
  | Some mem =>
    let name := c_str mem in
    if decide (name = EmptyString) then Some (-1, s)
    else if OS.open_fails (OS.plan s) name then Some (-1, s)
    else
      let fd := lowest_free (OS.fds s) (size (OS.fds s)) 3 in
      let entry := OS.mk_open_file name O flags in
      match flags with
      | OS.O_RDONLY =>
        match OS.files s !! name with
        | None => Some (-1, s)
        | Some _ => Some (fd, OS.set_fds (<[fd := entry]> (OS.fds s)) s)
        end
      | OS.O_WRONLY_CREAT_TRUNC =>
        Some (fd, OS.set_fds (<[fd := entry]> (OS.fds s))
                    (OS.set_files (<[name := EmptyString]> (OS.files s)) s))
      end
  end.

(** [write(fd, buf, n)]: the number of bytes written, or -1. *)
Definition sys_write (fd : Z) (buf : string) (n : nat) : Sys Z := λ s,
  match OS.fds s !! fd with
  | Some (OS.mk_open_file name off OS.O_WRONLY_CREAT_TRUNC) =>
    let r := OS.write_result (OS.plan s) (Z.of_nat n) in
    if r <? 0 then Some (-1, s)
    else
      let k := Z.to_nat (Z.min r (Z.of_nat n)) in
      let old := default EmptyString (OS.files s !! name) in
      let new := take off old +:+ take k buf +:+ skip (off + k) old in
      Some (Z.of_nat k,
            OS.set_fds (<[fd := OS.mk_open_file name (off + k) OS.O_WRONLY_CREAT_TRUNC]> (OS.fds s))
              (OS.set_files (<[name := new]> (OS.files s)) s))
  | _ => Some (-1, s)
  end.

(** [read(fd, buffer, n)]: the number of bytes read, or -1, and the array
    [buffer] with those bytes stored at its start. *)
Definition sys_read (fd : Z) (buffer : string) (n : nat) : Sys (Z * string) := λ s,
  match OS.fds s !! fd with
  | Some (OS.mk_open_file name off OS.O_RDONLY) =>
    let rest := skip off (default EmptyString (OS.files s !! name)) in
    let avail := Nat.min n (String.length rest) in
    let r := OS.read_result (OS.plan s) (Z.of_nat avail) in
    if r <? 0 then Some ((-1, buffer), s)
    else
      let k := Z.to_nat (Z.min r (Z.of_nat avail)) in
      Some ((Z.of_nat k, take k rest +:+ skip k buffer),
            OS.set_fds (<[fd := OS.mk_open_file name (off + k) OS.O_RDONLY]> (OS.fds s)) s)
  | _ => Some ((-1, buffer), s)
  end.

(** [close(fd)] *)
Definition sys_close (fd : Z) : Sys Z := λ s,
  match OS.fds s !! fd with
  | Some _ => Some (0, OS.set_fds (delete fd (OS.fds s)) s)
  | None => Some (-1, s)
  end.

(** [remove(path)]: 0, or -1. *)
Definition sys_remove (path : option string) : Sys Z := λ s,
  match path with
  | None => Some (-1, s)
  | Some mem =>
    let name := c_str mem in
    if OS.remove_fails (OS.plan s) name then Some (-1, s)
    else match OS.files s !! name with
         | None => Some (-1, s)
         | Some _ => Some (0, OS.set_files (delete name (OS.files s)) s)
         end
  end.

(** [send(socket, buf, n, MSG_DONTWAIT)]: the number of bytes taken, or a
    value that is not positive; the bytes taken are appended to what the
    client receives. *)
Definition sys_send (socket : Z) (buf : string) (n : nat) : Sys Z := λ s,
  let r := OS.send_result (OS.plan s) (Z.of_nat n) in
  if r <=? 0 then Some (r, s)
  else
    let k := Z.to_nat (Z.min r (Z.of_nat n)) in
    Some (Z.of_nat k, OS.set_sent (OS.sent s ++ [(socket, take k buf)]) s).

(** ** Key-value backend

    The messages of [LOG_INFO] and [LOG_ERROR] go to the standard streams of
    the process and are left out. *)

Definition server_write_key_value (digest : option server_op_t) : Sys server_err_t :=
  match digest with
  | None => mret SERVER_E_NULL
  | Some d =>
    fd ← sys_open (arg d 0) OS.O_WRONLY_CREAT_TRUNC;
    if fd <? 0 then mret SERVER_E_OS
    else
      match arg d 1 with
      | None => undefined
      | Some value =>
        cnt ← sys_write fd value (strlen value);
        let err := if cnt =? 0 then SERVER_E_OS else SERVER_OK in
        _ ← sys_close fd;
        mret err
      end
  end.

Definition server_read_key_value (digest : option server_op_t)
    (buffer : string) (buffer_size : nat) : Sys (server_err_t * string) :=
  match digest with
  | None => mret (SERVER_E_NULL, buffer)
  | Some d =>
    fd ← sys_open (arg d 0) OS.O_RDONLY;
    if fd <? 0 then mret (SERVER_E_NOT_FOUND, buffer)
    else
      '(cnt, buffer) ← sys_read fd buffer buffer_size;
      let err := if cnt =? 0 then SERVER_E_NOT_FOUND else SERVER_OK in
      _ ← sys_close fd;
      mret (err, buffer)
  end.

Definition server_delete_key_value (digest : option server_op_t) : Sys server_err_t :=
  match digest with
  | None => mret SERVER_E_NULL
  | Some d =>
    status ← sys_remove (arg d 0);
    mret (if status =? 0 then SERVER_OK else SERVER_E_NOT_FOUND)
  end.

(** ** Response encoder *)

(** [strlen(buffer)] on an array: defined when a NUL lies inside it. *)
Definition strlen_array (buffer : string) : Sys nat :=
  if decide (strlen buffer < String.length buffer)%nat
  then mret (strlen buffer) else undefined.

(** [strcat(buffer, src)] on an array: defined when the text, [src] and the
    terminating NUL fit. *)
Definition strcat_array (buffer src : string) : Sys string :=
  let n := strlen buffer in
  let m := String.length src in
  if decide (n + m + 1 ≤ String.length buffer)%nat
  then mret (take n buffer +:+ src +:+ String NUL (skip (n + m + 1) buffer))
  else undefined.

(** [sprintf(buffer, fmt, ...)] with the formatted [text]. *)
Definition sprintf_array (buffer text : string) : Sys string :=
  let m := String.length text in
  if decide (m + 1 ≤ String.length buffer)%nat
  then mret (text +:+ String NUL (skip (m + 1) buffer))
  else undefined.

(** The branch of [server_op_process] that [digest->op] selects. *)
Inductive process_branch : Set :=
| Branch_set
| Branch_get
| Branch_del
| Branch_none.

Definition select_branch (d : server_op_t) : process_branch :=
  if decide (op d = SERVER_OP_SET) then Branch_set
  else if decide (op d = SERVER_OP_GET) then Branch_get
  else if decide (op d = SERVER_OP_DEL) then Branch_del
  else Branch_none.

(** The first half of [server_op_process]: the backend operation, with the
    local [buffer] it may fill. *)
Definition run_backend (d : server_op_t) (buffer : string)
    : Sys (server_err_t * string) :=
  match select_branch d with
  | Branch_set => err ← server_write_key_value (Some d); mret (err, buffer)
  | Branch_get => server_read_key_value (Some d) buffer (String.length buffer)
  | Branch_del => err ← server_delete_key_value (Some d); mret (err, buffer)
  | Branch_none => mret (SERVER_E_NOT_FOUND, buffer)
  end.

(** The second half: the response sent on [socket] for the result [err]. *)
Definition respond (socket : Z) (d : server_op_t) (err : server_err_t)
    (buffer : string) : Sys server_err_t :=
  if decide (err = SERVER_OK) then
    rt ← sys_send socket (literal SERVER_OK_RESPONSE) (sizeof_literal SERVER_OK_RESPONSE);
    let err := if rt <=? 0 then SERVER_E_OS else err in
    if decide (op d = SERVER_OP_GET ∧ rt > 0) then
      buffer ← strcat_array buffer (String LF EmptyString);
      n ← strlen_array buffer;
      rt ← sys_send socket buffer n;
      mret (if rt <=? 0 then SERVER_E_OS else err)
    else mret err
  else if decide (err = SERVER_E_NOT_FOUND) then
    rt ← sys_send socket (literal SERVER_NOTFOUND_RESPONSE)
                  (sizeof_literal SERVER_NOTFOUND_RESPONSE);
    mret (if rt <=? 0 then SERVER_E_OS else err)
  else
    buffer ← sprintf_array buffer ("ERROR:" +:+ pretty (err_code err));
    n ← strlen_array buffer;
    rt ← sys_send socket buffer n;
    mret (if rt <=? 0 then SERVER_E_OS else err).

Definition server_op_process (socket : Z) (digest : option server_op_t)
    : Sys server_err_t :=
  match digest with
  | None => mret SERVER_E_NULL
  | Some d =>
    let buffer := zeros 128 in
    '(err, buffer) ← run_backend d buffer;
    respond socket d err buffer
  end.

(** ** Connection server: what [dict_server_start] does with one message

    [received] holds the [len > 0] bytes that [recv] stored in [buffer];
    [buffer[len] = 0] needs [len] to be an index of the array.  The digest is
    the local [server_op_t digest = {0}]: a store that [server_op_check] made
    past its array [args] is an access outside an object, after which the
    program has no defined behaviour.  Otherwise a result other than
    [SERVER_OK] is logged and nothing else happens. *)
Definition dict_server_dispatch (newfd : Z) (received : string) : Sys server_err_t :=
  let len := String.length received in
  if decide (len < SERVER_BUFFER_SIZE)%nat then
    let buffer := received +:+ String NUL EmptyString in
    let digest := digest_zero in
    let r := server_op_check (Some buffer) (Z.of_nat len) (Some digest) in
    if decide (overrun r = []) then
      if decide (ret r ≠ SERVER_OK) then mret (ret r)
      else server_op_process newfd (digest_out r)
    else undefined
  else undefined.

(** The loop [while (len = recv(...))] over the results of the successive
    calls of [recv], each the value [len] returned and the bytes stored in
    the buffer: a negative [len] is logged, a positive one dispatched, zero
    ends the loop. *)
Fixpoint dict_server_recv_loop (newfd : Z) (inbox : list (Z * string)) : Sys unit :=
  match inbox with
  | [] => mret tt
  | (len, received) :: inbox' =>
    if len =? 0 then mret tt
    else if len <? 0 then dict_server_recv_loop newfd inbox'
    else _ ← dict_server_dispatch newfd received;
         dict_server_recv_loop newfd inbox'
  end.

(** ** Vocabulary of the specification *)

(** A request line: the text and the newline that ends it. *)
Definition line (s : string) : string := s +:+ String LF EmptyString.

(** [needle] occurs somewhere in [text]. *)
Definition occurs (needle text : string) : Prop :=
  ∃ pre post, text = pre +:+ needle +:+ post.

Definition not_nul (c : ascii) : bool := negb (Ascii.eqb c NUL).

(** Every character of [s] satisfies [p]. *)
Fixpoint all_chars (p : ascii → bool) (s : string) : bool :=
  match s with
  | EmptyString => true
  | String c rest => p c && all_chars p rest
  end.

(** An argument as the parser hands it on: not empty, and free of NUL, of
    blanks and of newlines. *)
Definition is_token (t : string) : bool :=
  match t with
  | EmptyString => false
  | String _ _ => all_chars (λ c, not_nul c && negb (is_delim delim c)) t
  end.

(** The state left by a computation, when it has one. *)
Definition final {A : Type} (r : option (A * OS.state)) : option OS.state := snd <$> r.

(** The value of a computation, when it has one. *)
Definition value {A : Type} (r : option (A * OS.state)) : option A := fst <$> r.

(** *** The parser, for the statements about it *)

(** The operation the three probes leave in the digest. *)
Definition detected (text : string) : server_op :=
  op (probe SERVER_DEL_OP_STRING SERVER_OP_DEL text
       (probe SERVER_SET_OP_STRING SERVER_OP_SET text
         (probe SERVER_GET_OP_STRING SERVER_OP_GET text digest_zero))).

(** The slots below the counter hold tokens; nothing was stored outside the
    array as long as the counter is at most [SERVER_MAX_ARGS], and once it is
    larger one token has been stored in the slot after the last. *)
Definition filled (n : nat) (st : server_op_t * list (nat * string)) : Prop :=
  length (args st.1) = SERVER_MAX_ARGS ∧
  (∀ i, (i < n)%nat → (i < SERVER_MAX_ARGS)%nat →
     ∃ t, arg st.1 i = Some t ∧ is_token t = true) ∧
  ((n ≤ SERVER_MAX_ARGS)%nat → st.2 = []) ∧
  ((SERVER_MAX_ARGS < n)%nat → ∃ t, st.2 = [(SERVER_MAX_ARGS, t)]).

(** The outcomes of [server_op_check], path by path. *)
Inductive check_path (buffer : option string) (length : Z)
    (digest : option server_op_t) (r : check_out) : Prop :=
| Path_size :
    to_size_t length < 4 →
    ret r = SERVER_E_SIZE → digest_out r = digest → overrun r = [] →
    check_path buffer length digest r
| Path_null :
    4 ≤ to_size_t length → buffer = None ∨ digest = None →
    ret r = SERVER_E_NULL → digest_out r = digest → overrun r = [] →
    check_path buffer length digest r
| Path_invalid mem d0 :
    4 ≤ to_size_t length → buffer = Some mem → digest = Some d0 →
    detected (c_str mem) = SERVER_OP_NONE →
    ret r = SERVER_E_INVALID → digest_out r = Some digest_zero → overrun r = [] →
    check_path buffer length digest r
| Path_parsed mem d0 d n :
    4 ≤ to_size_t length → buffer = Some mem → digest = Some d0 →
    op d = detected (c_str mem) → op d ≠ SERVER_OP_NONE →
    digest_out r = Some d → filled n (d, overrun r) →
    (ret r = SERVER_E_TOO_MANY ∧ (SERVER_MAX_ARGS < n)%nat
     ∨ ret r = SERVER_E_MISSING ∧
         (op d = SERVER_OP_SET ∧ n ≠ SERVER_MAX_ARGS
          ∨ (op d = SERVER_OP_GET ∨ op d = SERVER_OP_DEL) ∧ n ≠ 1%nat)
     ∨ ret r = SERVER_OK ∧
         (op d = SERVER_OP_SET ∧ n = SERVER_MAX_ARGS
          ∨ (op d = SERVER_OP_GET ∨ op d = SERVER_OP_DEL) ∧ n = 1%nat)) →
    check_path buffer length digest r.

(** *** The backend, for the statements about it *)

(** The bytes of the persistence unit that [open(key, O_RDONLY)] reaches in
    [s]; [None] when the unit is absent or the system refuses to open it. *)
Definition readable (s : OS.state) (key : option string) : option string :=
  match key with
  | None => None
  | Some mem =>
    let name := c_str mem in
    if decide (name = EmptyString) then None
    else if OS.open_fails (OS.plan s) name then None
    else OS.files s !! name
  end.

(** The count [read] returns in [s] for a unit holding [content] and a
    buffer of [size] bytes. *)
Definition read_count (s : OS.state) (content : string) (size : nat) : Z :=
  let avail := Z.of_nat (Nat.min size (String.length content)) in
  let r := OS.read_result (OS.plan s) avail in
  if r <? 0 then -1 else Z.min r avail.

(** [open(key, O_WRONLY | O_CREAT | O_TRUNC)] succeeds in [s]. *)
Definition creatable (s : OS.state) (key : option string) : bool :=
  match key with
  | None => false
  | Some mem =>
    let name := c_str mem in
    if decide (name = EmptyString) then false
    else negb (OS.open_fails (OS.plan s) name)
  end.

(** The count [write] returns in [s] when asked for [n] bytes. *)
Definition write_count (s : OS.state) (n : nat) : Z :=
  let r := OS.write_result (OS.plan s) (Z.of_nat n) in
  if r <? 0 then -1 else Z.min r (Z.of_nat n).

(** A system on which every [write] fails (a full disk, say). *)
Definition write_error : OS.faults :=
  {| OS.open_fails := λ _, false;
     OS.remove_fails := λ _, false;
     OS.write_result := λ _, -1;
     OS.read_result := λ n, n;
     OS.send_result := λ n, n |}.

(** A system whose only unit, [k], is empty. *)
Definition one_empty_unit : OS.state :=
  OS.set_files {[ "k" := EmptyString ]} (OS.boot OS.no_faults).

(** Unfolds the monad of [Sys]. *)
Ltac sys_unfold := unfold mbind, Sys_bind, mret, Sys_ret, undefined in *.

(** [remove(key)] succeeds in [s]: the unit exists and the system does not
    refuse. *)
Definition removable (s : OS.state) (key : option string) : bool :=
  match key with
  | None => false
  | Some mem =>
    let name := c_str mem in
    negb (OS.remove_fails (OS.plan s) name) && bool_decide (is_Some (OS.files s !! name))
  end.

(** [send] takes every byte it is asked to take. *)
Definition sends_all (s : OS.state) : Prop :=
  ∀ n, OS.send_result (OS.plan s) n = n.

(** [send] takes nothing, whatever it is asked. *)
Definition sends_nothing (s : OS.state) : Prop :=
  ∀ n, OS.send_result (OS.plan s) n ≤ 0.

(** The bytes of the two literal responses, terminating NUL included. *)
Definition OK_BYTES : string := literal SERVER_OK_RESPONSE.
Definition NOTFOUND_BYTES : string := literal SERVER_NOTFOUND_RESPONSE.

(** An entry of the stream of [recv] results that the loop passes over: an
    error of [recv], or a message that fits the buffer and that the parser
    rejects without having stored anything outside the digest.  (A message
    with three or more arguments is rejected too, but only after its third
    token went past [args]: it is not among these.) *)
Definition passed_over (entry : Z * string) : bool :=
  let r := server_op_check (Some (entry.2 +:+ String NUL EmptyString))
             (Z.of_nat (String.length entry.2)) (Some digest_zero) in
  (entry.1 <? 0) ||
  ((0 <? entry.1) &&
   bool_decide (String.length entry.2 < SERVER_BUFFER_SIZE)%nat &&
   bool_decide (overrun r = []) &&
   bool_decide (ret r ≠ SERVER_OK)).

(** A system whose only unit, [x], holds [42]. *)
Definition one_unit_42 : OS.state :=
  OS.set_files {[ "x" := "42" ]} (OS.boot OS.no_faults).

(** A system on which [send] fails. *)
Definition peer_gone : OS.faults :=
  {| OS.open_fails := λ _, false;
     OS.remove_fails := λ _, false;
     OS.write_result := λ n, n;
     OS.read_result := λ n, n;
     OS.send_result := λ _, -1 |}.

(** A system that refuses to open any unit. *)
Definition read_only_store : OS.faults :=
  {| OS.open_fails := λ _, true;
     OS.remove_fails := λ _, false;
     OS.write_result := λ n, n;
     OS.read_result := λ n, n;
     OS.send_result := λ n, n |}.

(** *** Requests, for the statements about whole messages *)

(** All the tokens [strtok_r] yields from [temp], call after call, until it
    returns the null pointer. *)
Equations? tokens (temp : string) : list string by wf (String.length temp) lt :=
  tokens temp with inspect (strtok_r temp delim) := {
    | exist _ (None, _) _ => []
    | exist _ (Some token, temp') Htok => token :: tokens temp' }.
Proof. eapply strtok_r_shorter; eassumption. Qed.

(** Words joined by single blanks, as a client writes a request. *)
Fixpoint unwords (ws : list string) : string :=
  match ws with
  | [] => EmptyString
  | [w] => w
  | w :: ws' => w +:+ String " "%char (unwords ws')
  end.

(** The argument loop, run on the list of the tokens instead of the calls of
    [strtok_r]. *)
Fixpoint args_of_tokens (ts : list string) (op_args : nat)
    (st : server_op_t * list (nat * string))
    : option server_err_t * nat * (server_op_t * list (nat * string)) :=
  match ts with
  | [] => (None, op_args, st)
  | token :: ts' =>
      if decide (SERVER_MAX_ARGS < op_args)%nat
      then (Some SERVER_E_TOO_MANY, op_args, st)
      else args_of_tokens ts' (S op_args) (store_arg op_args token st)
  end.

(** ** GPIO instances ([gpio.c])

    The module keeps its instances in a static array of
    [MAX_GPIO_INSTANCES] entries; a [gpio_t] is a pointer to one of them,
    modelled by its index, [None] for the null pointer.  The functions of the
    hardware layer are declared in [hal.h] and defined elsewhere: the model
    records each call of them, and takes what [hal_gpio_get_input] returns
    from the pins.  A function yields [None] where it dereferences a pointer
    that is null or points to no instance. *)

Module Gpio.

Definition MAX_GPIO_INSTANCES : nat := 10.

(** [struct gpio_s], [port] and [bit] being [uint8_t] values. *)
Record gpio_s : Set := mk_gpio {
  port : Z;
  bit : Z;
  output : bool;
  used : bool;
}.

Inductive hal_call : Set :=
| Hal_set_direction (port bit : Z) (output : bool)
| Hal_set_output (port bit : Z) (active : bool)
| Hal_get_input (port bit : Z).

Record world : Type := mk_world {
  instances : list gpio_s;       (* the static array of [gpioAllocate] *)
  hal_log : list hal_call;       (* the calls made to the hardware layer *)
  pins : Z → Z → bool;           (* what [hal_gpio_get_input] reads *)
}.

(** The state at start: the array zero-initialised. *)
Definition start (pins : Z → Z → bool) : world :=
  {| instances := replicate MAX_GPIO_INSTANCES (mk_gpio 0 0 false false);
     hal_log := [];
     pins := pins |}.

(** The loop of [gpioAllocate], with [fuel] iterations left from [index]
    on. *)
Fixpoint gpioAllocate_from (fuel index : nat) (arr : list gpio_s)
    : option nat * list gpio_s :=
  match fuel with
  | O => (None, arr)
  | S fuel' =>
    match arr !! index with
    | Some g =>
      if used g then gpioAllocate_from fuel' (S index) arr
      else (Some index, <[index := mk_gpio (port g) (bit g) (output g) true]> arr)
    | None => (None, arr)
    end
  end.

Definition gpioAllocate (arr : list gpio_s) : option nat * list gpio_s :=
  gpioAllocate_from MAX_GPIO_INSTANCES 0 arr.

Definition gpioCreate (port bit : Z) (st : world) : option nat * world :=
  let '(self, arr) := gpioAllocate (instances st) in
  match self with
  | Some i =>
    (self, {| instances := alter (λ g, mk_gpio port bit false (used g)) i arr;
              hal_log := hal_log st; pins := pins st |})
  | None => (None, {| instances := arr; hal_log := hal_log st; pins := pins st |})
  end.

(** The instance [self] points to. *)
Definition deref (self : option nat) (st : world) : option (nat * gpio_s) :=
  match self with
  | Some i => match instances st !! i with
              | Some g => Some (i, g)
              | None => None
              end
  | None => None
  end.

Definition gpioSetOutput (self : option nat) (output : bool) (st : world)
    : option world :=
  match deref self st with
  | Some (i, g) =>
    Some {| instances := <[i := mk_gpio (port g) (bit g) output (used g)]> (instances st);
            hal_log := hal_log st ++ [Hal_set_direction (port g) (bit g) output];
            pins := pins st |}
  | None => None
  end.

Definition gpioSetState (self : option nat) (state : bool) (st : world)
    : option world :=
  match deref self st with
  | Some (i, g) =>
    if Gpio.output g
    then Some {| instances := instances st;
                 hal_log := hal_log st ++ [Hal_set_direction (port g) (bit g) (Gpio.output g)];
                 pins := pins st |}
    else Some st
  | None => None
  end.

Definition gpioGetState (self : option nat) (st : world) : option (bool * world) :=
  match deref self st with
  | Some (i, g) =>
    Some (pins st (port g) (bit g),
          {| instances := instances st;
             hal_log := hal_log st ++ [Hal_get_input (port g) (bit g)];
             pins := pins st |})
  | None => None
  end.

(** A call of one of the four public functions, and a program of such
    calls run from a state; the handles are the program's to choose. *)
Inductive call : Set :=
| Create (port bit : Z)
| Set_output (self : option nat) (output : bool)
| Set_state (self : option nat) (state : bool)
| Get_state (self : option nat).

Definition step (c : call) (st : world) : option world :=
  match c with
  | Create p b => Some (gpioCreate p b st).2
  | Set_output self o => gpioSetOutput self o st
  | Set_state self x => gpioSetState self x st
  | Get_state self => snd <$> gpioGetState self st
  end.

Fixpoint run (cs : list call) (st : world) : option world :=
  match cs with
  | [] => Some st
  | c :: cs' => match step c st with
                | Some st' => run cs' st'
                | None => None
                end
  end.

(** Creations in a row, one for each port and bit of the list: the handles
    returned, and the state after. *)
Fixpoint create_many (pbs : list (Z * Z)) (st : world) : list (option nat) * world :=
  match pbs with
  | [] => ([], st)
  | (p, b) :: pbs' =>
    let '(self, st') := gpioCreate p b st in
    let '(rest, st'') := create_many pbs' st' in
    (self :: rest, st'')
  end.

(** The first [m] instances are in use, the others are not. *)
Definition in_use_up_to (m : nat) (arr : list gpio_s) : Prop :=
  length arr = MAX_GPIO_INSTANCES ∧
  ∀ i g, arr !! i = Some g → used g = bool_decide (i < m)%nat.

End Gpio.

(** * Properties *)

(** ** C strings *)

Section CStrFacts.

Lemma prefix_spec n h : String.prefix n h = true ↔ ∃ post, h = n +:+ post.
Proof.
  revert n; induction h as [|c' h IH]; intros [|c n]; cbn.
  - split; [intros _; by exists EmptyString | done].
  - split; [done | by intros [? [=]]].
  - split; [intros _; by exists (String c' h) | done].
  - destruct (ascii_dec c c') as [->|Hne].
    + rewrite IH. split; intros [post E]; exists post; [by rewrite E | by injection E].
    + split; [done|]. intros [post [= E _]]. done.
Qed.

Lemma strstr_unfold h n :
  strstr h n =
  if String.prefix n h then Some O
  else match h with
       | EmptyString => None
       | String _ rest => S <$> strstr rest n
       end.
Proof. by destruct h. Qed.

Lemma strstr_Some h n i : strstr h n = Some i → occurs n h.
Proof.
  revert i; induction h as [|c h IH]; intros i; rewrite strstr_unfold;
    destruct (String.prefix n _) eqn:E;
    try (intros _; apply prefix_spec in E as [post E]; by exists EmptyString, post).
  - done.
  - destruct (strstr h n) as [j|] eqn:Ej; [|done].
    intros _. destruct (IH j eq_refl) as (pre & post & ->).
    by exists (String c pre), post.
Qed.

Lemma strstr_None h n : strstr h n = None → ¬ occurs n h.
Proof.
  induction h as [|c h IH]; rewrite strstr_unfold;
    destruct (String.prefix n _) eqn:E; try done.
  - intros _ ([|? pre] & post & Hp); [|done].
    assert (String.prefix n EmptyString = true) by (apply prefix_spec; by exists post).
    congruence.
  - destruct (strstr h n) eqn:Ej; [done|].
    intros _ ([|c' pre] & post & Hp).
    + assert (String.prefix n (String c h) = true) by (apply prefix_spec; by exists post).
      congruence.
    + injection Hp as _ Hp. apply IH; [done|]. by exists pre, post.
Qed.

(** [strstr] finds a needle exactly when it occurs. *)
Lemma strstr_occurs h n : is_Some (strstr h n) ↔ occurs n h.
Proof.
  split.
  - intros [i Hi]. by eapply strstr_Some.
  - intros Ho. destruct (strstr h n) eqn:E; [done|]. by apply strstr_None in E.
Qed.

End CStrFacts.

(** ** Command parser *)

Section ParserFacts.

Implicit Types (d : server_op_t) (over : list (nat * string)).

Lemma all_chars_skip p n s : all_chars p s = true → all_chars p (skip n s) = true.
Proof.
  revert s; induction n as [|n IH]; intros [|c s]; simpl; try done.
  intros [_ ?]%andb_prop. by apply IH.
Qed.

Lemma all_chars_c_str mem : all_chars not_nul (c_str mem) = true.
Proof.
  induction mem as [|c mem IH]; simpl; [done|].
  destruct (Ascii.eqb c NUL) eqn:E; simpl; [done|].
  unfold not_nul at 1. by rewrite E.
Qed.

Lemma c_str_no_nul s : all_chars not_nul s = true → c_str s = s.
Proof.
  induction s as [|c s IH]; simpl; [done|].
  unfold not_nul at 1. destruct (Ascii.eqb c NUL); simpl; [done|].
  intros ?. by rewrite IH.
Qed.

Lemma skip_strspn_head s dl c rest :
  skip (strspn s dl) s = String c rest → is_delim dl c = false.
Proof.
  induction s as [|c' s IH]; simpl; [done|].
  destruct (is_delim dl c') eqn:E; simpl; [done|]. by intros [= <- _].
Qed.

Lemma take_strcspn_token s dl :
  all_chars not_nul s = true →
  all_chars (λ c, not_nul c && negb (is_delim dl c)) (take (strcspn s dl) s) = true.
Proof.
  induction s as [|c s IH]; simpl; [done|].
  intros [Hc Hs]%andb_prop. destruct (is_delim dl c) eqn:E; simpl; [done|].
  by rewrite Hc, E, IH.
Qed.

Lemma strtok_r_token_gen s dl token rest :
  all_chars not_nul s = true →
  strtok_r s dl = (Some token, rest) →
  token ≠ EmptyString ∧
  all_chars (λ c, not_nul c && negb (is_delim dl c)) token = true ∧
  all_chars not_nul rest = true.
Proof.
  intros Hs. unfold strtok_r.
  pose proof (all_chars_skip _ (strspn s dl) _ Hs) as Hs1.
  destruct (skip (strspn s dl) s) as [|c s1] eqn:E; [done|].
  intros [= <- <-].
  pose proof (take_strcspn_token _ dl Hs1) as Ht.
  apply skip_strspn_head in E.
  split_and!; [| exact Ht | exact (all_chars_skip _ (S (strcspn (String c s1) dl)) _ Hs1)].
  cbn [strcspn]. by rewrite E.
Qed.

(** What [strtok_r] returns from a text is a token, and what it leaves is
    text again. *)
Lemma strtok_r_token s token rest :
  all_chars not_nul s = true →
  strtok_r s delim = (Some token, rest) →
  is_token token = true ∧ all_chars not_nul rest = true.
Proof.
  intros Hs Htok.
  destruct (strtok_r_token_gen _ _ _ _ Hs Htok) as (Hne & Hall & Hrest).
  split; [|done]. by destruct token.
Qed.

(** Hoare-style rule for the argument loop: a property of the counter, the
    digest and the overrun log that every executed body preserves holds when
    the loop is left, and the loop is left either at its end or through the
    [SERVER_E_TOO_MANY] return, which needs a counter above
    [SERVER_MAX_ARGS].  The body only ever sees tokens. *)
Lemma args_loop_rule (P : nat → server_op_t * list (nat * string) → Prop) :
  (∀ n st token, (n ≤ SERVER_MAX_ARGS)%nat → is_token token = true →
     P n st → P (S n) (store_arg n token st)) →
  ∀ temp n st, all_chars not_nul temp = true → P n st →
    ∃ e n' st', args_loop temp n st = (e, n', st') ∧ P n' st' ∧ (n ≤ n')%nat ∧
      (e = None ∨ e = Some SERVER_E_TOO_MANY ∧ (SERVER_MAX_ARGS < n')%nat).
Proof.
  intros Hbody temp n st. funelim (args_loop temp n st); intros Htext HP; clear Heqcall.
  - case_decide as Hn.
    + eauto 10.
    + assert (Hle : (op_args ≤ SERVER_MAX_ARGS)%nat) by lia.
      destruct (strtok_r_token _ _ _ Htext Htok) as [Hq Htext'].
      destruct (H Hn P Hbody Htext' (Hbody _ _ token Hle Hq HP))
        as (e & n' & st' & -> & ? & ? & ?).
      exists e, n', st'. repeat split; auto with lia.
  - eauto 10.
Qed.

Lemma store_arg_op i token st : op (store_arg i token st).1 = op st.1.
Proof. destruct st as [d over]; unfold store_arg; by case_decide. Qed.

(** The loop never touches [digest->op]. *)
Lemma args_loop_op temp n st :
  op (args_loop temp n st).2.1 = op st.1.
Proof.
  funelim (args_loop temp n st); [|done].
  case_decide; [done|]. by rewrite H, store_arg_op.
Qed.

Lemma filled_store n token st :
  (n ≤ SERVER_MAX_ARGS)%nat → is_token token = true →
  filled n st → filled (S n) (store_arg n token st).
Proof.
  destruct st as [d over]. intros Hn Htok (Hlen & Hargs & Hover & _).
  unfold store_arg, filled, arg in *; simpl in *. case_decide as Hlt; simpl.
  - split_and!.
    + by rewrite length_insert.
    + intros i Hi Hi2. destruct (decide (i = n)) as [->|Hne].
      * exists token. rewrite list_lookup_insert_eq; [done | lia].
      * rewrite list_lookup_insert_ne by done. apply Hargs; lia.
    + intros; apply Hover; lia.
    + intros; lia.
  - assert (n = SERVER_MAX_ARGS) as -> by lia.
    split_and!; [done | | intros; lia |].
    + intros i Hi Hi2. apply Hargs; lia.
    + intros _. exists token. by rewrite Hover.
Qed.

Lemma filled_zero : filled 0 (digest_zero, []).
Proof. split_and!; [done | intros; lia | done | intros; unfold SERVER_MAX_ARGS in *; lia]. Qed.

Lemma probe_args keyword k text d : args (probe keyword k text d) = args d.
Proof. unfold probe. case_decide; [|done]. by destruct (strstr _ _). Qed.

Lemma detected_cases text :
  let get := strstr text SERVER_GET_OP_STRING in
  let set := strstr text SERVER_SET_OP_STRING in
  let del := strstr text SERVER_DEL_OP_STRING in
  detected text =
    match get, set, del with
    | Some _, _, _ => SERVER_OP_GET
    | None, Some _, _ => SERVER_OP_SET
    | None, None, Some _ => SERVER_OP_DEL
    | None, None, None => SERVER_OP_NONE
    end.
Proof.
  unfold detected, probe; simpl.
  destruct (strstr text SERVER_GET_OP_STRING); simpl; [done|].
  destruct (strstr text SERVER_SET_OP_STRING); simpl; [done|].
  by destruct (strstr text SERVER_DEL_OP_STRING).
Qed.

Lemma to_size_t_zero length : 4 ≤ to_size_t length → length ≠ 0.
Proof. intros H ->. unfold to_size_t in H. rewrite Z.mod_0_l in H; lia. Qed.

Lemma server_op_check_paths buffer length digest :
  check_path buffer length digest (server_op_check buffer length digest).
Proof.
  unfold server_op_check.
  change (Z.of_nat (sizeof_literal SERVER_GET_OP_STRING)) with 4.
  destruct (Z.ltb_spec (to_size_t length) 4) as [Hlt|Hge]; [by apply Path_size|].
  destruct buffer as [mem|]; [|apply Path_null; auto].
  pose proof (to_size_t_zero _ Hge) as Hnz.
  destruct (Z.eqb_spec length 0) as [|_]; [done|].
  destruct digest as [d0|]; [|apply Path_null; auto].
  fold (detected (c_str mem)).
  set (d1 := probe _ _ _ (probe _ _ _ (probe _ _ _ digest_zero))).
  assert (Hop : op d1 = detected (c_str mem)) by done.
  assert (Hargs : args d1 = args digest_zero) by (unfold d1; by rewrite !probe_args).
  case_decide as Hnone.
  { eapply Path_invalid; eauto. simpl. f_equal.
    rewrite Hnone in Hop. clearbody d1. destruct d1 as [o a]; simpl in *.
    by subst. }
  destruct (strtok_r (c_str mem) delim) as [first temp] eqn:Efirst.
  assert (Htemp : all_chars not_nul temp = true).
  { pose proof (all_chars_c_str mem) as Hc. destruct first as [t|].
    - by destruct (strtok_r_token _ _ _ Hc Efirst).
    - unfold strtok_r in Efirst.
      destruct (skip _ _) eqn:?; [by injection Efirst as <- | done]. }
  assert (Hfill : filled 0 (d1, [])).
  { destruct filled_zero as (? & ? & ? & ?).
    split_and!; simpl; [by rewrite Hargs | intros; lia | done | done]. }
  destruct (args_loop_rule filled (λ n st token, filled_store n token st)
              temp 0%nat (d1, []) Htemp Hfill)
    as (e & n & [d over] & Eloop & Hfin & _ & He).
  pose proof (args_loop_op temp 0 (d1, [])) as Hopl. rewrite Eloop in Hopl.
  simpl in Hopl. rewrite Eloop.
  assert (op d = detected (c_str mem)) by congruence.
  assert (op d ≠ SERVER_OP_NONE) by congruence.
  destruct He as [->|[-> Hn]].
  - repeat case_decide; eapply Path_parsed; eauto; simpl.
    right; right. split; [done|].
    destruct (op d) eqn:Eop; try done;
      [left | right | right]; split; auto;
      destruct (decide (n = SERVER_MAX_ARGS)); destruct (decide (n = 1%nat));
      naive_solver.
  - eapply Path_parsed; eauto.
Qed.

Lemma detected_spec text :
  (occurs SERVER_GET_OP_STRING text → detected text = SERVER_OP_GET) ∧
  (¬ occurs SERVER_GET_OP_STRING text → occurs SERVER_SET_OP_STRING text →
     detected text = SERVER_OP_SET) ∧
  (¬ occurs SERVER_GET_OP_STRING text → ¬ occurs SERVER_SET_OP_STRING text →
     occurs SERVER_DEL_OP_STRING text → detected text = SERVER_OP_DEL) ∧
  (¬ occurs SERVER_GET_OP_STRING text → ¬ occurs SERVER_SET_OP_STRING text →
     ¬ occurs SERVER_DEL_OP_STRING text → detected text = SERVER_OP_NONE).
Proof.
  rewrite detected_cases; cbv zeta.
  pose proof (strstr_Some text SERVER_GET_OP_STRING) as Hg.
  pose proof (strstr_None text SERVER_GET_OP_STRING) as Hg'.
  pose proof (strstr_Some text SERVER_SET_OP_STRING) as Hs.
  pose proof (strstr_None text SERVER_SET_OP_STRING) as Hs'.
  pose proof (strstr_Some text SERVER_DEL_OP_STRING) as Hd.
  pose proof (strstr_None text SERVER_DEL_OP_STRING) as Hd'.
  destruct (strstr text SERVER_GET_OP_STRING), (strstr text SERVER_SET_OP_STRING),
    (strstr text SERVER_DEL_OP_STRING); naive_solver.
Qed.

(** A call that passed the first checks leaves the detected operation in the
    digest, and [SERVER_E_INVALID] is the answer to no operation at all. *)
Lemma server_op_check_detected mem length d0 :
  4 ≤ to_size_t length →
  let r := server_op_check (Some mem) length (Some d0) in
  op <$> digest_out r = Some (detected (c_str mem)) ∧
  (ret r = SERVER_E_INVALID ↔ detected (c_str mem) = SERVER_OP_NONE).
Proof.
  intros Hge r.
  pose proof (server_op_check_paths (Some mem) length (Some d0)) as Hp.
  fold r in Hp.
  destruct Hp as
    [Hlt | _ [[=]|[=]] | mem' d0' _ [= <-] _ Hnone Hret Hd _
     | mem' d0' d n _ [= <-] _ Hop Hne Hd _ Hret].
  - lia.
  - rewrite Hd, Hnone. by split.
  - rewrite Hd; simpl. rewrite Hop. split; [done|].
    split; [|congruence]. intros E.
    destruct Hret as [[? _]|[[? _]|[? _]]]; congruence.
Qed.

(** The size check in full: [SERVER_E_SIZE] is the answer to the lengths 0
    to 3, and to no other length an [int] can hold. *)
Lemma server_op_check_size buffer length digest :
  - 2 ^ 31 ≤ length < 2 ^ 31 →
  ret (server_op_check buffer length digest) = SERVER_E_SIZE ↔ 0 ≤ length < 4.
Proof.
  intros Hint.
  assert (Hconv : to_size_t length < 4 ↔ 0 ≤ length < 4).
  { unfold to_size_t. destruct (Z.neg_nonneg_cases length).
    - replace (length mod 2 ^ 64) with (length + 2 ^ 64)
        by (apply Z.mod_unique with (-1); lia).
      lia.
    - rewrite Z.mod_small; lia. }
  rewrite <- Hconv.
  destruct (server_op_check_paths buffer length digest) as
    [Hlt Hret | ? _ Hret | ? ? ? _ _ _ Hret | ? ? ? ? ? _ _ _ _ _ _ Hret].
  - done.
  - rewrite Hret. split; [done | lia].
  - rewrite Hret. split; [done | lia].
  - split; [|lia]. intros E.
    destruct Hret as [[? _]|[[? _]|[? _]]]; congruence.
Qed.

(** When [SERVER_E_TOO_MANY] is returned, one token has already been stored
    in the slot after the last of [args]. *)
Lemma server_op_check_too_many buffer length digest :
  let r := server_op_check buffer length digest in
  ret r = SERVER_E_TOO_MANY → ∃ t, overrun r = [(SERVER_MAX_ARGS, t)].
Proof.
  intros r.
  pose proof (server_op_check_paths buffer length digest) as Hp. fold r in Hp.
  destruct Hp as
    [_ Hret | _ _ Hret | ? ? _ _ _ _ Hret | ? ? d n _ _ _ _ _ _ Hfill Hret];
    try congruence.
  intros E. destruct Hfill as (_ & _ & _ & Hover). apply Hover.
  destruct Hret as [[_ ?]|[[? _]|[? _]]]; [done | congruence..].
Qed.

End ParserFacts.

(** C3 (the code departs from it): three or more arguments after the keyword
    should give [SERVER_E_TOO_MANY] with no store outside [args].  The request
    [GET a b c] has three: the third is stored in [args[2]], one slot after
    the array, and the answer is [SERVER_E_MISSING]. *)
Theorem third_argument_overruns_args :
  let r := server_op_check (Some (line "GET a b c")) 10 (Some digest_zero) in
  ret r = SERVER_E_MISSING ∧
  digest_out r = Some {| op := SERVER_OP_GET; args := [Some "a"; Some "b"] |} ∧
  overrun r = [(2%nat, "c")].
Proof. by vm_compute. Qed.

(** With a fourth argument the answer is [SERVER_E_TOO_MANY], after the same
    store. *)
Example fourth_argument_is_too_many :
  let r := server_op_check (Some (line "GET a b c d")) 12 (Some digest_zero) in
  ret r = SERVER_E_TOO_MANY ∧ overrun r = [(2%nat, "c")].
Proof. by vm_compute. Qed.

(** C4 (the code departs from it): a buffer of length 3, the length of the
    keywords, should pass the size check.  The check compares the length with
    [sizeof] of the keyword literal, which counts the terminating NUL, so
    length 3 is answered with [SERVER_E_SIZE], whatever the buffer. *)
Theorem length_three_is_rejected (buffer : option string) (digest : option server_op_t) :
  ret (server_op_check buffer 3 digest) = SERVER_E_SIZE.
Proof. by apply server_op_check_size. Qed.




(** C8: in a buffer that passed the size check, the operation is found by
    searching the text of the buffer for [GET], then [SET], then [DEL],
    wherever they stand: the first of the three that occurs is the operation
    recorded in the digest, and when none occurs the answer is
    [SERVER_E_INVALID]. *)
Theorem keyword_by_substring_search (mem : string) (length : Z) (d0 : server_op_t) :
  4 ≤ to_size_t length →
  let r := server_op_check (Some mem) length (Some d0) in
  let text := c_str mem in
  (occurs "GET" text → op <$> digest_out r = Some SERVER_OP_GET) ∧
  (¬ occurs "GET" text → occurs "SET" text →
     op <$> digest_out r = Some SERVER_OP_SET) ∧
  (¬ occurs "GET" text → ¬ occurs "SET" text → occurs "DEL" text →
     op <$> digest_out r = Some SERVER_OP_DEL) ∧
  (¬ occurs "GET" text → ¬ occurs "SET" text → ¬ occurs "DEL" text →
     ret r = SERVER_E_INVALID).
Proof.
  intros Hge r text.
  destruct (server_op_check_detected mem length d0 Hge) as [Hop Hinv].
  fold r in Hop, Hinv. rewrite Hop, Hinv.
  destruct (detected_spec text) as (Hg & Hs & Hd & Hn).
  split_and!; intros; f_equal; auto.
Qed.

Lemma keyword_by_substring_search_witness :
  op <$> digest_out (server_op_check (Some (line "SET GETTY v")) 12 (Some digest_zero))
    = Some SERVER_OP_GET
  ∧ op <$> digest_out (server_op_check (Some (line "k DEL")) 6 (Some digest_zero))
    = Some SERVER_OP_DEL.
Proof.
  split.
  - apply (keyword_by_substring_search (line "SET GETTY v") 12 digest_zero); [done|].
    by exists "SET ", ("TY v" +:+ String LF EmptyString).
  - apply (keyword_by_substring_search (line "k DEL") 6 digest_zero); [done| | |].
    + apply strstr_None. by vm_compute.
    + apply strstr_None. by vm_compute.
    + by exists "k ", (String LF EmptyString).
Defined.

(** ** The operating system model *)

Section SysFacts.

Implicit Types (d : server_op_t).

Lemma lowest_free_ge t fuel fd : fd ≤ lowest_free t fuel fd.
Proof.
  revert fd; induction fuel as [|fuel IH]; intros fd; simpl; [lia|].
  destruct (t !! fd); [|lia]. specialize (IH (fd + 1)). lia.
Qed.

Lemma take_length s : take (String.length s) s = s.
Proof. induction s as [|c s IH]; simpl; [done | by rewrite IH]. Qed.

Lemma skip_empty n : skip n EmptyString = EmptyString.
Proof. by destruct n. Qed.

Lemma append_empty_r (s : string) : s +:+ EmptyString = s.
Proof. induction s as [|c s IH]; [done|]. change (String c (s +:+ EmptyString) = String c s). by rewrite IH. Qed.

Lemma skip_zeros n m : skip n (zeros m) = zeros (m - n).
Proof.
  revert m; induction n as [|n IH]; intros [|m]; simpl; auto.
Qed.


End SysFacts.

(** ** Key-value backend *)

Section BackendFacts.

Lemma append_empty_l (s : string) : EmptyString +:+ s = s.
Proof. done. Qed.

(** SET, step by step: refused by [open] it returns [SERVER_E_OS] and leaves
    the system as it was; otherwise the unit holds the bytes [write] took and
    the result depends on whether the count returned is zero. *)
Lemma server_write_key_value_run (d : server_op_t) (v : string) (s : OS.state) :
  arg d 1 = Some v →
  if creatable s (arg d 0) then
    ∃ k s', arg d 0 = Some k ∧
      server_write_key_value (Some d) s =
        Some (if write_count s (strlen v) =? 0 then SERVER_E_OS else SERVER_OK, s') ∧
      OS.files s' = <[c_str k := take (Z.to_nat (write_count s (strlen v))) v]> (OS.files s) ∧
      OS.plan s' = OS.plan s ∧ OS.sent s' = OS.sent s
  else server_write_key_value (Some d) s = Some (SERVER_E_OS, s).
Proof.
  intros Hv. unfold server_write_key_value, creatable, sys_open. sys_unfold.
  rewrite Hv. destruct (arg d 0) as [k|]; [|reflexivity].
  cbv zeta. case_decide as Hname; [reflexivity|].
  destruct (OS.open_fails (OS.plan s) (c_str k)); [reflexivity|]. cbn [negb].
  set (fd := lowest_free _ _ _).
  assert (Hfd : 3 ≤ fd) by apply lowest_free_ge.
  destruct (Z.ltb_spec fd 0) as [|_]; [lia|].
  exists k. unfold sys_write, write_count.
  cbn [OS.fds OS.files OS.plan OS.set_fds OS.set_files].
  rewrite !lookup_insert_eq. cbn [default].
  set (r := OS.write_result _ _).
  destruct (Z.ltb_spec r 0) as [Hneg|Hpos].
  - unfold sys_close. cbn [OS.fds OS.set_fds]. rewrite lookup_insert_eq.
    eexists. split_and!; try done; reflexivity.
  - rewrite Z2Nat.id by lia.
    unfold sys_close. cbn [OS.fds OS.set_fds]. rewrite lookup_insert_eq.
    eexists. split_and!; try done; try reflexivity.
    cbn [OS.files OS.set_fds OS.set_files]. rewrite insert_insert_eq.
    cbn [take id]. by rewrite skip_empty, append_empty_l, append_empty_r.
Qed.

(** GET, step by step: without a unit that can be opened it returns
    [SERVER_E_NOT_FOUND] and leaves everything as it was; otherwise the result
    depends on whether the count returned by [read] is zero, and the buffer
    starts with the bytes read. *)
Lemma server_read_key_value_run (d : server_op_t) (buffer : string) (size : nat)
    (s : OS.state) :
  match readable s (arg d 0) with
  | None =>
    server_read_key_value (Some d) buffer size s = Some ((SERVER_E_NOT_FOUND, buffer), s)
  | Some content =>
    let cnt := read_count s content size in
    ∃ s', server_read_key_value (Some d) buffer size s =
        Some ((if cnt =? 0 then SERVER_E_NOT_FOUND else SERVER_OK,
               if cnt <? 0 then buffer
               else take (Z.to_nat cnt) content +:+ skip (Z.to_nat cnt) buffer), s') ∧
      OS.files s' = OS.files s ∧ OS.plan s' = OS.plan s ∧ OS.sent s' = OS.sent s
  end.
Proof.
  unfold server_read_key_value, readable, sys_open. sys_unfold.
  destruct (arg d 0) as [k|]; [|reflexivity].
  cbv zeta. case_decide as Hname; [reflexivity|].
  destruct (OS.open_fails (OS.plan s) (c_str k)); [reflexivity|].
  destruct (OS.files s !! c_str k) as [content|] eqn:Hfile; [|reflexivity].
  set (fd := lowest_free _ _ _).
  assert (Hfd : 3 ≤ fd) by apply lowest_free_ge.
  destruct (Z.ltb_spec fd 0) as [|_]; [lia|].
  unfold sys_read, read_count.
  cbn [OS.fds OS.files OS.plan OS.set_fds OS.set_files].
  rewrite !lookup_insert_eq, Hfile. cbn [default skip].
  set (r := OS.read_result _ _).
  destruct (Z.ltb_spec r 0) as [Hneg|Hpos].
  - unfold sys_close. cbn [OS.fds OS.set_fds]. rewrite lookup_insert_eq.
    eexists. split_and!; try done; reflexivity.
  - set (avail := Nat.min size (String.length content)) in *.
    rewrite Z2Nat.id by lia.
    unfold sys_close. cbn [OS.fds OS.set_fds]. rewrite lookup_insert_eq.
    destruct (Z.ltb_spec (Z.min r (Z.of_nat avail)) 0) as [|_]; [lia|].
    eexists. split_and!; try done; reflexivity.
Qed.



(** The result of SET for a digest with a value: [SERVER_E_OS] exactly when
    [open] fails or [write] returns zero, [SERVER_OK] in every other case,
    a negative count returned by [write] included. *)
Lemma server_write_key_value_result (d : server_op_t) (v : string) (s : OS.state) :
  arg d 1 = Some v →
  ∃ e s', server_write_key_value (Some d) s = Some (e, s') ∧
    (e = SERVER_E_OS ↔ creatable s (arg d 0) = false ∨ write_count s (strlen v) = 0) ∧
    (e = SERVER_OK ∨ e = SERVER_E_OS).
Proof.
  intros Hv. pose proof (server_write_key_value_run d v s Hv) as Hrun.
  destruct (creatable s (arg d 0)).
  - destruct Hrun as (k & s' & _ & -> & _). eexists _, _. split; [done|].
    destruct (Z.eqb_spec (write_count s (strlen v)) 0) as [Hz|Hz].
    + split; [|by right]. split; [by right | done].
    + split; [|by left]. split; [done | by intros [|]].
  - rewrite Hrun. eexists _, _. split; [done|].
    split; [|by right]. split; [by left | done].
Qed.

(** C7 (the code departs from it): SET should return [SERVER_E_OS] when
    writing the value fails.  A failing [write] returns -1, the code tests
    the count against 0 only, and SET returns [SERVER_OK] while the unit,
    created by [open], stays empty. *)
Theorem failed_write_is_reported_ok :
  let d := {| op := SERVER_OP_SET; args := [Some "k"; Some "v"] |} in
  let r := server_write_key_value (Some d) (OS.boot write_error) in
  write_count (OS.boot write_error) (strlen "v") = -1 ∧
  value r = Some SERVER_OK ∧
  (λ s, OS.files s !! "k") <$> final r = Some (Some EmptyString).
Proof. by vm_compute. Qed.

(** C9: GET returns [SERVER_E_NOT_FOUND] when the unit of the key is absent
    or cannot be opened, and when it opens and [read] returns zero bytes, so
    that an empty unit gives what a missing one gives; in every other case
    it returns [SERVER_OK], with the bytes read at the start of the buffer of
    the caller. *)
Theorem get_not_found_or_ok (d : server_op_t) (buffer : string) (size : nat)
    (s : OS.state) :
  match readable s (arg d 0) with
  | None =>
    server_read_key_value (Some d) buffer size s = Some ((SERVER_E_NOT_FOUND, buffer), s)
  | Some content =>
    let cnt := read_count s content size in
    (∃ s', server_read_key_value (Some d) buffer size s =
        Some ((if cnt =? 0 then SERVER_E_NOT_FOUND else SERVER_OK,
               if cnt <? 0 then buffer
               else take (Z.to_nat cnt) content +:+ skip (Z.to_nat cnt) buffer), s') ∧
      OS.files s' = OS.files s) ∧
    (content = EmptyString → 0 ≤ OS.read_result (OS.plan s) 0 →
     value (server_read_key_value (Some d) buffer size s)
       = Some (SERVER_E_NOT_FOUND, buffer))
  end.
Proof.
  pose proof (server_read_key_value_run d buffer size s) as Hrun.
  destruct (readable s (arg d 0)) as [content|]; [|done].
  cbv zeta in *. destruct Hrun as (s' & Hrun & Hfiles & _).
  split; [by exists s'|].
  intros -> Hread. rewrite Hrun. unfold read_count.
  rewrite Nat.min_0_r. change (Z.of_nat 0) with 0.
  destruct (Z.ltb_spec (OS.read_result (OS.plan s) 0) 0) as [|_]; [lia|].
  rewrite Z.min_r by done. reflexivity.
Qed.

Lemma get_not_found_or_ok_witness :
  let d := {| op := SERVER_OP_GET; args := [Some "k"; None] |} in
  value (server_read_key_value (Some d) (zeros 128) 128 one_empty_unit)
    = Some (SERVER_E_NOT_FOUND, zeros 128).
Proof.
  intros d.
  pose proof (get_not_found_or_ok d (zeros 128) 128 one_empty_unit) as H.
  change (readable one_empty_unit (arg d 0)) with (Some EmptyString) in H.
  destruct H as [_ H]. apply H; [reflexivity | simpl; lia].
Defined.

End BackendFacts.

(** ** Response encoder and dispatch *)

Section ProcessFacts.

Lemma c_str_terminated mem : c_str (mem +:+ String NUL EmptyString) = c_str mem.
Proof.
  induction mem as [|c mem IH]; [done|].
  change (String c mem +:+ String NUL EmptyString)
    with (String c (mem +:+ String NUL EmptyString)).
  cbn [c_str]. by rewrite IH.
Qed.

(** The result codes of the three backend operations on a digest that is
    not the null pointer. *)
Lemma server_write_key_value_codes d s e s' :
  server_write_key_value (Some d) s = Some (e, s') → e = SERVER_OK ∨ e = SERVER_E_OS.
Proof.
  unfold server_write_key_value. sys_unfold.
  destruct (sys_open _ _ s) as [[fd s1]|]; [|done].
  destruct (fd <? 0); [intros [= <- _]; auto|].
  destruct (arg d 1) as [v|]; [|done].
  destruct (sys_write _ _ _ s1) as [[cnt s2]|]; [|done].
  destruct (sys_close _ s2) as [[? s3]|]; [|done].
  intros [= <- _]. destruct (cnt =? 0); auto.
Qed.

Lemma server_read_key_value_codes d buffer size s e b s' :
  server_read_key_value (Some d) buffer size s = Some ((e, b), s') →
  e = SERVER_OK ∨ e = SERVER_E_NOT_FOUND.
Proof.
  unfold server_read_key_value. sys_unfold.
  destruct (sys_open _ _ s) as [[fd s1]|]; [|done].
  destruct (fd <? 0); [intros [= <- _ _]; auto|].
  destruct (sys_read _ _ _ s1) as [[[cnt b1] s2]|]; [|done].
  destruct (sys_close _ s2) as [[? s3]|]; [|done].
  intros [= <- _ _]. destruct (cnt =? 0); auto.
Qed.

Lemma server_delete_key_value_codes d s e s' :
  server_delete_key_value (Some d) s = Some (e, s') →
  e = SERVER_OK ∨ e = SERVER_E_NOT_FOUND.
Proof.
  unfold server_delete_key_value. sys_unfold.
  destruct (sys_remove _ s) as [[status s1]|]; [|done].
  intros [= <- _]. destruct (status =? 0); auto.
Qed.

Lemma run_backend_codes d buffer s e b s' :
  run_backend d buffer s = Some ((e, b), s') →
  e = SERVER_OK ∨ e = SERVER_E_OS ∨ e = SERVER_E_NOT_FOUND.
Proof.
  unfold run_backend. destruct (select_branch d); sys_unfold.
  - destruct (server_write_key_value _ s) as [[e1 s1]|] eqn:E; [|done].
    intros [= <- _ _]. apply server_write_key_value_codes in E. tauto.
  - intros E. apply server_read_key_value_codes in E. tauto.
  - destruct (server_delete_key_value _ s) as [[e1 s1]|] eqn:E; [|done].
    intros [= <- _ _]. apply server_delete_key_value_codes in E. tauto.
  - intros [= <- _ _]. auto.
Qed.

(** [respond] hands on the result it was given, or [SERVER_E_OS]. *)
Lemma respond_codes socket d err buffer s e s' :
  respond socket d err buffer s = Some (e, s') → e = err ∨ e = SERVER_E_OS.
Proof.
  unfold respond. sys_unfold.
  repeat case_decide;
    repeat match goal with
           | |- context [match ?m s with _ => _ end] =>
               destruct (m s) as [[? ?]|]; [|done]
           | |- context [match ?m ?x with Some _ => _ | None => _ end] =>
               destruct (m x) as [[? ?]|]; [|done]
           | |- context [if ?b then _ else _] => destruct b
           end;
    try (intros [= <- _]; auto).
Qed.

Lemma server_op_process_codes socket d s e s' :
  server_op_process socket (Some d) s = Some (e, s') →
  e = SERVER_OK ∨ e = SERVER_E_OS ∨ e = SERVER_E_NOT_FOUND.
Proof.
  unfold server_op_process. sys_unfold.
  destruct (run_backend d _ s) as [[[err b] s1]|] eqn:E; [|done].
  intros Hr. apply respond_codes in Hr. apply run_backend_codes in E.
  destruct Hr as [->| ->]; tauto.
Qed.

(** A message the parser does not accept is dropped: the system is left as
    it was, nothing is sent. *)
Lemma dict_server_dispatch_rejected newfd received s :
  (String.length received < SERVER_BUFFER_SIZE)%nat →
  let r := server_op_check (Some (received +:+ String NUL EmptyString))
             (Z.of_nat (String.length received)) (Some digest_zero) in
  overrun r = [] →
  ret r ≠ SERVER_OK →
  dict_server_dispatch newfd received s = Some (ret r, s).
Proof.
  intros Hlen r Hover Hret. unfold dict_server_dispatch.
  case_decide; [|done]. fold r. case_decide; [|done]. by case_decide.
Qed.


End ProcessFacts.

(** C6 (the code departs from it): the response to a successful SET or DEL
    should be the three bytes [OK] and newline.  The length handed to [send]
    is [sizeof] of the literal, which counts its terminating NUL, so four
    bytes go out: [OK], newline and a NUL. *)
Theorem ok_response_has_four_bytes :
  let r := dict_server_dispatch 7 (line "SET k v") (OS.boot OS.no_faults) in
  value r = Some SERVER_OK ∧
  OS.sent <$> final r
    = Some [(7, String "O" (String "K" (String LF (String NUL EmptyString))))].
Proof. by vm_compute. Qed.

(** C2, as the specification states it, fails on the request [FOO bar]: the
    parser returns [SERVER_E_INVALID] and nothing at all is sent to the
    client. *)
Lemma unknown_command_gets_no_response :
  let r := dict_server_dispatch 7 (line "FOO bar") (OS.boot OS.no_faults) in
  value r = Some SERVER_E_INVALID ∧ OS.sent <$> final r = Some [].
Proof. by vm_compute. Qed.

(** C2, amended: a received message in which none of [GET], [SET], [DEL]
    occurs is rejected by the parser, with [SERVER_E_INVALID] when it has at
    least 4 bytes and [SERVER_E_SIZE] when it is shorter, and the server
    sends no response for it: the dispatch leaves the system, the bytes sent
    to the client included, as it was. *)
Theorem unknown_command_is_dropped (newfd : Z) (received : string) (s : OS.state) :
  (String.length received < SERVER_BUFFER_SIZE)%nat →
  ¬ occurs "GET" (c_str received) →
  ¬ occurs "SET" (c_str received) →
  ¬ occurs "DEL" (c_str received) →
  dict_server_dispatch newfd received s =
    Some (if decide (4 ≤ String.length received)%nat
          then SERVER_E_INVALID else SERVER_E_SIZE, s).
Proof.
  intros Hlen Hg Hs Hd.
  pose proof (dict_server_dispatch_rejected newfd received s Hlen) as Hdrop.
  cbv zeta in Hdrop.
  pose proof (server_op_check_paths (Some (received +:+ String NUL EmptyString))
                (Z.of_nat (String.length received)) (Some digest_zero)) as Hp.
  assert (Hconv : to_size_t (Z.of_nat (String.length received))
                  = Z.of_nat (String.length received)).
  { unfold to_size_t, SERVER_BUFFER_SIZE in *. apply Z.mod_small. lia. }
  destruct (detected_spec (c_str received)) as (_ & _ & _ & Hnone).
  specialize (Hnone Hg Hs Hd).
  destruct Hp as
    [Hlt Hret _ Hover | _ [[=]|[=]] | mem d0 Hge [= <-] _ _ Hret _ Hover
     | mem d0 d n _ [= <-] _ Hop Hne _ _ _].
  - rewrite Hdrop by congruence. rewrite Hret. case_decide; [lia | done].
  - rewrite Hdrop by congruence. rewrite Hret. case_decide; [done | lia].
  - rewrite c_str_terminated in Hop. congruence.
Qed.

Lemma unknown_command_is_dropped_witness :
  dict_server_dispatch 7 (line "FOO bar") (OS.boot OS.no_faults)
    = Some (SERVER_E_INVALID, OS.boot OS.no_faults).
Proof.
  apply (unknown_command_is_dropped 7 (line "FOO bar") (OS.boot OS.no_faults)).
  - vm_compute. lia.
  - apply strstr_None. by vm_compute.
  - apply strstr_None. by vm_compute.
  - apply strstr_None. by vm_compute.
Defined.

(** C10: when [server_op_check] returns [SERVER_OK], the digest it filled
    holds an operation other than NONE, a first argument and, for SET, a
    second one, all of them tokens, and nothing was stored outside [args].
    Hence [server_op_process] takes one of its three backend branches, never
    the fallback; the backend operation is handed a digest that is not the
    null pointer and a [SET] finds the value it measures with [strlen]; and
    no backend operation, nor [server_op_process], returns
    [SERVER_E_NULL]. *)
Theorem validated_command (buffer : option string) (length : Z)
    (digest : option server_op_t) :
  let r := server_op_check buffer length digest in
  ret r = SERVER_OK →
  ∃ d, digest_out r = Some d ∧ overrun r = [] ∧
    op d ≠ SERVER_OP_NONE ∧
    (∃ k, arg d 0 = Some k ∧ is_token k = true) ∧
    (op d = SERVER_OP_SET → ∃ v, arg d 1 = Some v ∧ is_token v = true) ∧
    select_branch d ≠ Branch_none ∧
    (op d = SERVER_OP_SET → ∀ s, is_Some (server_write_key_value (digest_out r) s)) ∧
    (∀ s e s', server_write_key_value (digest_out r) s = Some (e, s') → e ≠ SERVER_E_NULL) ∧
    (∀ b n s e b' s', server_read_key_value (digest_out r) b n s = Some ((e, b'), s') →
       e ≠ SERVER_E_NULL) ∧
    (∀ s e s', server_delete_key_value (digest_out r) s = Some (e, s') → e ≠ SERVER_E_NULL) ∧
    (∀ socket s e s', server_op_process socket (digest_out r) s = Some (e, s') →
       e ≠ SERVER_E_NULL).
Proof.
  intros r Hok.
  pose proof (server_op_check_paths buffer length digest) as Hp. fold r in Hp.
  destruct Hp as
    [_ Hret | _ _ Hret | ? ? _ _ _ _ Hret | mem d0 d n _ _ _ _ Hne Hd Hfill Hret];
    try congruence.
  destruct Hret as [[? _]|[[? _]|[_ Hn]]]; try congruence.
  destruct Hfill as (_ & Hargs & Hover & _). cbn [fst snd] in *.
  unfold SERVER_MAX_ARGS in *.
  assert (Hle : (n ≤ 2)%nat) by (destruct Hn as [[_ ->]|[_ ->]]; lia).
  assert (H0 : (0 < n)%nat) by (destruct Hn as [[_ ->]|[_ ->]]; lia).
  assert (Hset : op d = SERVER_OP_SET → ∃ v, arg d 1 = Some v ∧ is_token v = true).
  { intros Hop. destruct Hn as [[_ ->]|[[E|E] _]]; [|congruence..].
    apply Hargs; lia. }
  exists d. rewrite Hd.
  split; [done|]. split; [auto|]. split; [done|].
  split; [apply Hargs; lia|]. split; [done|]. split_and!.
  - unfold select_branch. repeat case_decide; try done.
    destruct (op d); congruence.
  - intros Hop s. destruct (Hset Hop) as (v & Hv & _).
    destruct (server_write_key_value_result d v s Hv) as (e & s' & -> & _). eauto.
  - intros s e s' E. apply server_write_key_value_codes in E.
    destruct E as [->| ->]; discriminate.
  - intros b m s e b' s' E. apply server_read_key_value_codes in E.
    destruct E as [->| ->]; discriminate.
  - intros s e s' E. apply server_delete_key_value_codes in E.
    destruct E as [->| ->]; discriminate.
  - intros socket s e s' E. apply server_op_process_codes in E.
    destruct E as [->|[->| ->]]; discriminate.
Qed.

Lemma validated_command_witness :
  let r := server_op_check (Some (line "SET x 42")) 9 (Some digest_zero) in
  ∃ d, digest_out r = Some d ∧ overrun r = [] ∧
    op d ≠ SERVER_OP_NONE ∧
    (∃ k, arg d 0 = Some k ∧ is_token k = true) ∧
    (op d = SERVER_OP_SET → ∃ v, arg d 1 = Some v ∧ is_token v = true) ∧
    select_branch d ≠ Branch_none ∧
    (op d = SERVER_OP_SET → ∀ s, is_Some (server_write_key_value (digest_out r) s)) ∧
    (∀ s e s', server_write_key_value (digest_out r) s = Some (e, s') → e ≠ SERVER_E_NULL) ∧
    (∀ b n s e b' s', server_read_key_value (digest_out r) b n s = Some ((e, b'), s') →
       e ≠ SERVER_E_NULL) ∧
    (∀ s e s', server_delete_key_value (digest_out r) s = Some (e, s') → e ≠ SERVER_E_NULL) ∧
    (∀ socket s e s', server_op_process socket (digest_out r) s = Some (e, s') →
       e ≠ SERVER_E_NULL).
Proof.
  apply (validated_command (Some (line "SET x 42")) 9 (Some digest_zero)).
  by vm_compute.
Defined.

(** ** The sequential scenario of the specification

    [SET x 42], [GET x], [DEL x], [GET x], then the peer closes: what the
    client receives, call of [send] by call of [send]. *)
Example sequential_scenario :
  let ok := String "O" (String "K" (String LF (String NUL EmptyString))) in
  OS.sent <$> final (dict_server_recv_loop 7
      [(9, line "SET x 42"); (6, line "GET x"); (6, line "DEL x");
       (6, line "GET x"); (0, EmptyString)]
      (OS.boot OS.no_faults))
  = Some [(7, ok); (7, ok); (7, line "42"); (7, ok);
          (7, literal SERVER_NOTFOUND_RESPONSE)].
Proof. by vm_compute. Qed.

(** A backend error reaches the client as [ERROR:] and the code: SET on a
    system that refuses to open the unit. *)
Example error_response :
  let refusing := {| OS.open_fails := λ _, true;
                     OS.remove_fails := λ _, false;
                     OS.write_result := λ n, n;
                     OS.read_result := λ n, n;
                     OS.send_result := λ n, n |} in
  OS.sent <$> final (dict_server_dispatch 7 (line "SET k v") (OS.boot refusing))
  = Some [(7, "ERROR:1")].
Proof. by vm_compute. Qed.

(** * Further properties of the server *)

(** ** The parser on the list of tokens *)

Section TokenFacts.

Lemma tokens_step temp :
  tokens temp =
  match strtok_r temp delim with
  | (None, _) => []
  | (Some token, temp') => token :: tokens temp'
  end.
Proof.
  funelim (tokens temp); rewrite Htok || rewrite e; done.
Qed.

Lemma args_loop_tokens temp n st :
  args_loop temp n st = args_of_tokens (tokens temp) n st.
Proof.
  funelim (args_loop temp n st); rewrite (tokens_step temp).
  - rewrite Htok. cbn [args_of_tokens]. case_decide; [done|]. by apply H.
  - by rewrite e.
Qed.

Lemma word_strcspn dl w c rest :
  all_chars (λ a, negb (is_delim dl a)) w = true → is_delim dl c = true →
  strcspn (w +:+ String c rest) dl = String.length w ∧
  take (String.length w) (w +:+ String c rest) = w ∧
  skip (S (String.length w)) (w +:+ String c rest) = rest.
Proof.
  intros Hw Hc. induction w as [|a w IH].
  - change (EmptyString +:+ String c rest) with (String c rest).
    cbn. by rewrite Hc.
  - cbn in Hw. apply andb_prop in Hw as [Ha Hw]. apply negb_true_iff in Ha.
    destruct (IH Hw) as (E1 & E2 & E3).
    change (String a w +:+ String c rest) with (String a (w +:+ String c rest)).
    cbn [strcspn take skip String.length]. rewrite Ha. cbn [take skip].
    by rewrite E1, E2.
Qed.

Lemma strtok_r_word_gen dl w c rest :
  w ≠ EmptyString →
  all_chars (λ a, negb (is_delim dl a)) w = true → is_delim dl c = true →
  strtok_r (w +:+ String c rest) dl = (Some w, rest).
Proof.
  intros Hne Hall Hc. destruct w as [|a w]; [done|].
  destruct (word_strcspn dl _ c rest Hall Hc) as (E1 & E2 & E3).
  pose proof Hall as Ha. cbn in Ha. apply andb_prop in Ha as [Ha _].
  apply negb_true_iff in Ha.
  unfold strtok_r.
  change (String a w +:+ String c rest) with (String a (w +:+ String c rest)) in *.
  cbn [strspn]. rewrite Ha. cbn [skip]. cbv zeta. rewrite E1, E2.
  f_equal. exact E3.
Qed.

Lemma is_token_no_delim w :
  is_token w = true → all_chars (λ a, negb (is_delim delim a)) w = true.
Proof.
  intros Hw. destruct w as [|a w]; [done|]. unfold is_token in Hw.
  revert Hw. generalize (String a w). generalize delim. clear. intros dl t.
  induction t as [|c t IH]; cbn; [done|].
  intros [[_ ->]%andb_prop ?]%andb_prop. auto.
Qed.

(** A token followed by a delimiter is what [strtok_r] returns, and the text
    after the delimiter is where it goes on. *)
Lemma strtok_r_word w c rest :
  is_token w = true → is_delim delim c = true →
  strtok_r (w +:+ String c rest) delim = (Some w, rest).
Proof.
  intros Hw Hc. apply strtok_r_word_gen; [by destruct w | | done].
  by apply is_token_no_delim.
Qed.

Lemma line_cons w u :
  line (w +:+ String " "%char u) = w +:+ String " "%char (line u).
Proof.
  unfold line. induction w as [|a w IH]; [done|].
  change (String a w +:+ ?x) with (String a (w +:+ x)). cbn. by rewrite <- IH.
Qed.

Lemma tokens_empty : tokens EmptyString = [].
Proof. by rewrite tokens_step. Qed.

(** Tokenising a line of words gives the words back. *)
Lemma tokens_line_unwords ws :
  Forall (λ w, is_token w = true) ws → tokens (line (unwords ws)) = ws.
Proof.
  induction 1 as [|w ws Hw Hws IH].
  - by rewrite tokens_step.
  - destruct ws as [|w' ws].
    + rewrite tokens_step. unfold line. cbn [unwords].
      rewrite (strtok_r_word w LF EmptyString Hw eq_refl). by rewrite tokens_empty.
    + rewrite tokens_step.
      change (unwords (w :: w' :: ws))
        with (w +:+ String " "%char (unwords (w' :: ws))).
      rewrite line_cons.
      rewrite (strtok_r_word w " "%char _ Hw eq_refl). by rewrite IH.
Qed.

Lemma all_chars_app p a b :
  all_chars p (a +:+ b) = all_chars p a && all_chars p b.
Proof.
  induction a as [|c a IH]; [done|].
  change (String c a +:+ b) with (String c (a +:+ b)). cbn. by rewrite IH, andb_assoc.
Qed.

Lemma is_token_not_nul w : is_token w = true → all_chars not_nul w = true.
Proof.
  intros Hw. destruct w as [|a w]; [done|]. unfold is_token in Hw.
  revert Hw. generalize (String a w). clear. intros t.
  induction t as [|c t IH]; cbn; [done|].
  intros [[-> _]%andb_prop ?]%andb_prop. auto.
Qed.

(** A line of words holds no NUL: the C string in it is the whole line. *)
Lemma c_str_line_unwords ws :
  Forall (λ w, is_token w = true) ws → c_str (line (unwords ws)) = line (unwords ws).
Proof.
  intros Hws. apply c_str_no_nul. unfold line. rewrite all_chars_app.
  apply andb_true_intro; split; [|done].
  induction Hws as [|w ws Hw Hws IH]; [done|].
  destruct ws as [|w' ws]; [by apply is_token_not_nul|].
  change (unwords (w :: w' :: ws))
    with (w +:+ String " "%char (unwords (w' :: ws))).
  rewrite all_chars_app. apply andb_true_intro; split; [by apply is_token_not_nul|].
  exact IH.
Qed.

(** [server_op_check], once the first checks are passed and an operation is
    detected, is the argument loop on the tokens after the first. *)
Lemma server_op_check_tokens mem length d0 :
  4 ≤ to_size_t length → detected (c_str mem) ≠ SERVER_OP_NONE →
  server_op_check (Some mem) length (Some d0) =
    match args_of_tokens (tail (tokens (c_str mem))) 0
            ({| op := detected (c_str mem); args := [None; None] |}, []) with
    | (Some e, _, (d, over)) => mk_check_out e (Some d) over
    | (None, op_args, (d, over)) =>
      if decide (op d = SERVER_OP_SET ∧ op_args ≠ SERVER_MAX_ARGS)
      then mk_check_out SERVER_E_MISSING (Some d) over
      else if decide ((op d = SERVER_OP_GET ∨ op d = SERVER_OP_DEL)
                      ∧ op_args ≠ 1%nat)
      then mk_check_out SERVER_E_MISSING (Some d) over
      else mk_check_out SERVER_OK (Some d) over
    end.
Proof.
  intros Hge Hdet. unfold server_op_check.
  change (Z.of_nat (sizeof_literal SERVER_GET_OP_STRING)) with 4.
  destruct (Z.ltb_spec (to_size_t length) 4) as [|_]; [lia|].
  pose proof (to_size_t_zero _ Hge) as Hnz.
  destruct (Z.eqb_spec length 0) as [|_]; [done|].
  fold (detected (c_str mem)).
  set (d1 := probe _ _ _ (probe _ _ _ (probe _ _ _ digest_zero))).
  assert (Hd1 : d1 = {| op := detected (c_str mem); args := [None; None] |}).
  { assert (Hop : op d1 = detected (c_str mem)) by done.
    assert (Hargs : args d1 = [None; None]) by (unfold d1; by rewrite !probe_args).
    clearbody d1. destruct d1; simpl in *. by subst. }
  rewrite Hd1. case_decide; [done|].
  rewrite (tokens_step (c_str mem)).
  destruct (strtok_r (c_str mem) delim) as [[first|] temp] eqn:E; cbn [tail].
  - by rewrite args_loop_tokens.
  - rewrite args_loop_tokens.
    unfold strtok_r in E. destruct (skip _ _) eqn:?; [|done].
    injection E as <-. by rewrite tokens_empty.
Qed.

End TokenFacts.

(** X1: in a buffer that passed the first checks and holds a keyword, the
    tokens after the first decide the result.  None: [SERVER_E_MISSING].
    One: [SERVER_OK] for GET and DEL, [SERVER_E_MISSING] for SET.  Two:
    [SERVER_OK] for SET, [SERVER_E_MISSING] for GET and DEL.  Three:
    [SERVER_E_MISSING], the third stored after the end of [args].  More:
    [SERVER_E_TOO_MANY], after the same store.  The digest holds the
    detected operation and the first two of the tokens. *)
Theorem check_by_argument_count (mem : string) (length : Z) (d0 : server_op_t) :
  4 ≤ to_size_t length →
  detected (c_str mem) ≠ SERVER_OP_NONE →
  let o := detected (c_str mem) in
  let r := server_op_check (Some mem) length (Some d0) in
  match tail (tokens (c_str mem)) with
  | [] =>
    r = mk_check_out SERVER_E_MISSING (Some {| op := o; args := [None; None] |}) []
  | [a] =>
    r = mk_check_out (if decide (o = SERVER_OP_SET) then SERVER_E_MISSING else SERVER_OK)
          (Some {| op := o; args := [Some a; None] |}) []
  | [a; b] =>
    r = mk_check_out (if decide (o = SERVER_OP_SET) then SERVER_OK else SERVER_E_MISSING)
          (Some {| op := o; args := [Some a; Some b] |}) []
  | [a; b; c] =>
    r = mk_check_out SERVER_E_MISSING
          (Some {| op := o; args := [Some a; Some b] |}) [(2%nat, c)]
  | a :: b :: c :: _ :: _ =>
    r = mk_check_out SERVER_E_TOO_MANY
          (Some {| op := o; args := [Some a; Some b] |}) [(2%nat, c)]
  end.
Proof.
  intros Hge Hdet o r. unfold r. rewrite (server_op_check_tokens _ _ _ Hge Hdet).
  fold o in Hdet |- *.
  destruct (tail (tokens (c_str mem))) as [|a [|b [|c [|e ts]]]];
    cbn; destruct o; done.
Qed.

Lemma check_by_argument_count_witness :
  server_op_check (Some (line "DEL a b c d e")) 14 (Some digest_zero)
  = mk_check_out SERVER_E_TOO_MANY
      (Some {| op := SERVER_OP_DEL; args := [Some "a"; Some "b"] |}) [(2%nat, "c")].
Proof.
  pose proof (check_by_argument_count (line "DEL a b c d e") 14 digest_zero) as H.
  apply H; [done | by vm_compute].
Defined.

(** ** Requests as a client writes them *)

Section RequestFacts.

(** The parser on a buffer that holds a line of words. *)
Lemma server_op_check_request mem kw ws length d0 o :
  Forall (λ w, is_token w = true) (kw :: ws) →
  c_str mem = line (unwords (kw :: ws)) →
  4 ≤ to_size_t length →
  detected (line (unwords (kw :: ws))) = o → o ≠ SERVER_OP_NONE →
  server_op_check (Some mem) length (Some d0) =
    match args_of_tokens ws 0 ({| op := o; args := [None; None] |}, []) with
    | (Some e, _, (d, over)) => mk_check_out e (Some d) over
    | (None, op_args, (d, over)) =>
      if decide (op d = SERVER_OP_SET ∧ op_args ≠ SERVER_MAX_ARGS)
      then mk_check_out SERVER_E_MISSING (Some d) over
      else if decide ((op d = SERVER_OP_GET ∨ op d = SERVER_OP_DEL)
                      ∧ op_args ≠ 1%nat)
      then mk_check_out SERVER_E_MISSING (Some d) over
      else mk_check_out SERVER_OK (Some d) over
    end.
Proof.
  intros Hws Hmem Hge Hdet Ho.
  rewrite server_op_check_tokens; [|done|rewrite Hmem; congruence].
  by rewrite Hmem, (tokens_line_unwords _ Hws), Hdet.
Qed.

Lemma occurs_refl n : occurs n n.
Proof. exists EmptyString, EmptyString. cbn. by rewrite append_empty_r. Qed.

Lemma append_assoc (a b c : string) : (a +:+ b) +:+ c = a +:+ (b +:+ c).
Proof.
  induction a as [|x a IH]; [done|].
  change ((String x a +:+ b) +:+ c) with (String x ((a +:+ b) +:+ c)).
  by rewrite IH.
Qed.

Lemma occurs_app_l n a b : occurs n a → occurs n (a +:+ b).
Proof.
  intros (pre & post & ->). exists pre, (post +:+ b).
  by rewrite !append_assoc.
Qed.

Lemma occurs_app_r n a b : occurs n b → occurs n (a +:+ b).
Proof.
  intros (pre & post & ->). exists (a +:+ pre), post.
  by rewrite !append_assoc.
Qed.

(** A keyword that occurs in one of the words occurs in the line. *)
Lemma occurs_in_line n w ws :
  w ∈ ws → occurs n w → occurs n (line (unwords ws)).
Proof.
  intros Hin Ho. unfold line. apply occurs_app_l.
  induction ws as [|w' ws IH]; [by apply elem_of_nil in Hin|].
  destruct ws as [|w'' ws].
  - apply list_elem_of_singleton in Hin as ->. exact Ho.
  - change (unwords (w' :: w'' :: ws))
      with (w' +:+ String " "%char (unwords (w'' :: ws))).
    apply elem_of_cons in Hin as [->|Hin]; [by apply occurs_app_l|].
    apply occurs_app_r. apply (occurs_app_r _ (String " "%char EmptyString)).
    by apply IH.
Qed.

(** The keyword a request starts with occurs in its line. *)
Lemma occurs_keyword kw ws : occurs kw (line (unwords (kw :: ws))).
Proof. apply (occurs_in_line _ kw); [set_solver | apply occurs_refl]. Qed.

End RequestFacts.

(** X2: the three requests as a client writes them, keyword, blank-separated
    arguments, newline, are accepted with their arguments in the digest: GET
    always; SET when [GET] occurs nowhere in the line; DEL when neither
    [GET] nor [SET] does. *)
Theorem well_formed_requests_are_accepted (k v : string) (length : Z)
    (d0 : server_op_t) :
  is_token k = true → is_token v = true → 4 ≤ to_size_t length →
  server_op_check (Some (line (unwords ["GET"; k]))) length (Some d0)
    = mk_check_out SERVER_OK
        (Some {| op := SERVER_OP_GET; args := [Some k; None] |}) [] ∧
  (¬ occurs "GET" (line (unwords ["SET"; k; v])) →
   server_op_check (Some (line (unwords ["SET"; k; v]))) length (Some d0)
     = mk_check_out SERVER_OK
         (Some {| op := SERVER_OP_SET; args := [Some k; Some v] |}) []) ∧
  (¬ occurs "GET" (line (unwords ["DEL"; k])) →
   ¬ occurs "SET" (line (unwords ["DEL"; k])) →
   server_op_check (Some (line (unwords ["DEL"; k]))) length (Some d0)
     = mk_check_out SERVER_OK
         (Some {| op := SERVER_OP_DEL; args := [Some k; None] |}) []).
Proof.
  intros Hk Hv Hge.
  assert (Hget : Forall (λ w, is_token w = true) ["GET"; k]) by (by repeat constructor).
  assert (Hset : Forall (λ w, is_token w = true) ["SET"; k; v]) by (by repeat constructor).
  assert (Hdel : Forall (λ w, is_token w = true) ["DEL"; k]) by (by repeat constructor).
  split_and!.
  - rewrite (server_op_check_request _ "GET" [k] length d0 SERVER_OP_GET Hget);
      [done | by apply c_str_line_unwords | done | | done].
    apply detected_spec. apply occurs_keyword.
  - intros Hng.
    rewrite (server_op_check_request _ "SET" [k; v] length d0 SERVER_OP_SET Hset);
      [done | by apply c_str_line_unwords | done | | done].
    apply detected_spec; [done|]. apply occurs_keyword.
  - intros Hng Hns.
    rewrite (server_op_check_request _ "DEL" [k] length d0 SERVER_OP_DEL Hdel);
      [done | by apply c_str_line_unwords | done | | done].
    apply detected_spec; [done..|]. apply occurs_keyword.
Qed.

Lemma well_formed_requests_are_accepted_witness :
  server_op_check (Some (line "SET colour red")) 15 (Some digest_zero)
    = mk_check_out SERVER_OK
        (Some {| op := SERVER_OP_SET; args := [Some "colour"; Some "red"] |}) [].
Proof.
  destruct (well_formed_requests_are_accepted "colour" "red" 15 digest_zero)
    as (_ & H & _); [done..|].
  apply H. apply strstr_None. by vm_compute.
Defined.

(** X3: the keyword is searched in the whole line, so a keyword inside an
    argument takes the place of the one the client wrote.  A SET whose key
    or value holds [GET] is rejected as a GET with two arguments; a DEL whose
    key holds [GET] is accepted as a GET of that key; a DEL whose key holds
    [SET] (and no [GET]) is rejected as a SET with one argument. *)
Theorem keyword_inside_argument_takes_over (k v : string) (length : Z)
    (d0 : server_op_t) :
  is_token k = true → is_token v = true → 4 ≤ to_size_t length →
  (occurs "GET" k ∨ occurs "GET" v →
   server_op_check (Some (line (unwords ["SET"; k; v]))) length (Some d0)
     = mk_check_out SERVER_E_MISSING
         (Some {| op := SERVER_OP_GET; args := [Some k; Some v] |}) []) ∧
  (occurs "GET" k →
   server_op_check (Some (line (unwords ["DEL"; k]))) length (Some d0)
     = mk_check_out SERVER_OK
         (Some {| op := SERVER_OP_GET; args := [Some k; None] |}) []) ∧
  (¬ occurs "GET" (line (unwords ["DEL"; k])) → occurs "SET" k →
   server_op_check (Some (line (unwords ["DEL"; k]))) length (Some d0)
     = mk_check_out SERVER_E_MISSING
         (Some {| op := SERVER_OP_SET; args := [Some k; None] |}) []).
Proof.
  intros Hk Hv Hge.
  assert (Hset : Forall (λ w, is_token w = true) ["SET"; k; v]) by (by repeat constructor).
  assert (Hdel : Forall (λ w, is_token w = true) ["DEL"; k]) by (by repeat constructor).
  split_and!.
  - intros Ho.
    rewrite (server_op_check_request _ "SET" [k; v] length d0 SERVER_OP_GET Hset);
      [done | by apply c_str_line_unwords | done | | done].
    apply detected_spec.
    destruct Ho as [Ho|Ho]; [apply (occurs_in_line _ k) | apply (occurs_in_line _ v)];
      try done; set_solver.
  - intros Ho.
    rewrite (server_op_check_request _ "DEL" [k] length d0 SERVER_OP_GET Hdel);
      [done | by apply c_str_line_unwords | done | | done].
    apply detected_spec. apply (occurs_in_line _ k); [set_solver | done].
  - intros Hng Ho.
    rewrite (server_op_check_request _ "DEL" [k] length d0 SERVER_OP_SET Hdel);
      [done | by apply c_str_line_unwords | done | | done].
    apply detected_spec; [done|]. apply (occurs_in_line _ k); [set_solver | done].
Qed.

Lemma keyword_inside_argument_takes_over_witness :
  server_op_check (Some (line "DEL TARGET")) 11 (Some digest_zero)
    = mk_check_out SERVER_OK
        (Some {| op := SERVER_OP_GET; args := [Some "TARGET"; None] |}) [].
Proof.
  destruct (keyword_inside_argument_takes_over "TARGET" "v" 11 digest_zero)
    as (_ & H & _); [done..|].
  apply H. by exists "TAR", EmptyString.
Defined.

(** ** The backend on the store *)

Section StoreFacts.

(** DEL, step by step. *)
Lemma server_delete_key_value_run (d : server_op_t) (s : OS.state) :
  if removable s (arg d 0) then
    ∃ k, arg d 0 = Some k ∧ is_Some (OS.files s !! c_str k) ∧
      server_delete_key_value (Some d) s =
        Some (SERVER_OK, OS.set_files (delete (c_str k) (OS.files s)) s)
  else server_delete_key_value (Some d) s = Some (SERVER_E_NOT_FOUND, s).
Proof.
  unfold server_delete_key_value, removable, sys_remove. sys_unfold.
  destruct (arg d 0) as [k|]; [|done]. cbv zeta.
  destruct (OS.remove_fails (OS.plan s) (c_str k)); [done|]. cbn [negb andb].
  case_bool_decide as Hf.
  - destruct Hf as [c Hc]. rewrite Hc. exists k. by rewrite Hc.
  - destruct (OS.files s !! c_str k) eqn:E; [|done]. by destruct Hf.
Qed.

End StoreFacts.

(** X4: a DEL that returns [SERVER_OK] had a key whose unit existed, and
    that unit is gone after it: a GET of the key then returns
    [SERVER_E_NOT_FOUND] and so does a second DEL, both leaving the system as
    it is.  Nothing is sent by the DEL itself. *)
Theorem delete_then_not_found (d : server_op_t) (s s1 : OS.state) :
  server_delete_key_value (Some d) s = Some (SERVER_OK, s1) →
  (∃ k, arg d 0 = Some k ∧ is_Some (OS.files s !! c_str k) ∧
        OS.files s1 !! c_str k = None ∧ OS.sent s1 = OS.sent s) ∧
  (∀ d' buffer size, arg d' 0 = arg d 0 →
     server_read_key_value (Some d') buffer size s1
       = Some ((SERVER_E_NOT_FOUND, buffer), s1)) ∧
  server_delete_key_value (Some d) s1 = Some (SERVER_E_NOT_FOUND, s1).
Proof.
  intros Hdel. pose proof (server_delete_key_value_run d s) as Hrun.
  destruct (removable s (arg d 0)); [|congruence].
  destruct Hrun as (k & Hk & Hsome & Hrun). rewrite Hrun in Hdel.
  injection Hdel as <-. split_and!.
  - exists k. split_and!; [done | done | | done].
    cbn. by rewrite lookup_delete_eq.
  - intros d' buffer size Hd'.
    pose proof (server_read_key_value_run d' buffer size
                  (OS.set_files (delete (c_str k) (OS.files s)) s)) as Hget.
    unfold readable in Hget. rewrite Hd', Hk in Hget. cbn in Hget.
    rewrite lookup_delete_eq in Hget.
    by repeat (case_decide || destruct (OS.open_fails _ _)).
  - pose proof (server_delete_key_value_run d
                  (OS.set_files (delete (c_str k) (OS.files s)) s)) as Hagain.
    unfold removable in Hagain. rewrite Hk in Hagain. cbn in Hagain.
    rewrite lookup_delete_eq in Hagain.
    rewrite bool_decide_eq_false_2 in Hagain by (by intros [? [=]]).
    by rewrite andb_false_r in Hagain.
Qed.

Lemma delete_then_not_found_witness :
  let d := {| op := SERVER_OP_DEL; args := [Some "k"; None] |} in
  server_delete_key_value (Some d) (OS.boot OS.no_faults)
    = Some (SERVER_E_NOT_FOUND, OS.boot OS.no_faults).
Proof.
  intros d.
  assert (H : server_delete_key_value (Some d) one_empty_unit
              = Some (SERVER_OK, OS.boot OS.no_faults)) by reflexivity.
  apply (delete_then_not_found d one_empty_unit (OS.boot OS.no_faults)) in H.
  exact (proj2 (proj2 H)).
Defined.



(** X6: GET hands over at most [buffer_size] bytes.  When the unit of the
    key opens, holds [content] and [read] delivers what is there, the buffer
    starts with the first [min buffer_size |content|] bytes of the content,
    the rest of the buffer is as it was, and the store is not changed; the
    result is [SERVER_OK] unless that count is 0. *)
Theorem get_reads_a_buffer_full (d : server_op_t) (content buffer : string)
    (size : nat) (s : OS.state) :
  readable s (arg d 0) = Some content →
  let n := Nat.min size (String.length content) in
  OS.read_result (OS.plan s) (Z.of_nat n) = Z.of_nat n →
  ∃ s', server_read_key_value (Some d) buffer size s =
      Some ((if decide (n = O) then SERVER_E_NOT_FOUND else SERVER_OK,
             take n content +:+ skip n buffer), s') ∧
    OS.files s' = OS.files s ∧ OS.sent s' = OS.sent s.
Proof.
  intros Hread n Hall.
  pose proof (server_read_key_value_run d buffer size s) as Hrun.
  rewrite Hread in Hrun. cbv zeta in Hrun.
  assert (Hcnt : read_count s content size = Z.of_nat n).
  { unfold read_count. fold n. rewrite Hall.
    destruct (Z.ltb_spec (Z.of_nat n) 0); lia. }
  rewrite Hcnt in Hrun. destruct Hrun as (s' & Hrun & Hfiles & _ & Hsent).
  exists s'. split_and!; [|done..]. rewrite Hrun, Nat2Z.id.
  destruct (Z.ltb_spec (Z.of_nat n) 0) as [|_]; [lia|].
  destruct (Z.eqb_spec (Z.of_nat n) 0); case_decide; try lia; done.
Qed.

Lemma get_reads_a_buffer_full_witness :
  let d := {| op := SERVER_OP_GET; args := [Some "k"; None] |} in
  let s := OS.set_files {[ "k" := "0123456789" ]} (OS.boot OS.no_faults) in
  ∃ s', server_read_key_value (Some d) (zeros 4) 4 s
          = Some ((SERVER_OK, "0123"), s') ∧
    OS.files s' = OS.files s ∧ OS.sent s' = OS.sent s.
Proof.
  intros d s.
  exact (get_reads_a_buffer_full d "0123456789" (zeros 4) 4 s eq_refl eq_refl).
Defined.

(** ** The responses on the wire *)

Section WireFacts.

Lemma length_app (a b : string) :
  String.length (a +:+ b) = (String.length a + String.length b)%nat.
Proof.
  induction a as [|x a IH]; [done|].
  change (String x a +:+ b) with (String x (a +:+ b)). cbn. by rewrite IH.
Qed.

Lemma take_app (a b : string) : take (String.length a) (a +:+ b) = a.
Proof.
  induction a as [|x a IH]; [by destruct b|].
  change (String x a +:+ b) with (String x (a +:+ b)). cbn. by rewrite IH.
Qed.

Lemma skip_app (a b : string) : skip (String.length a) (a +:+ b) = b.
Proof.
  induction a as [|x a IH]; [done|].
  change (String x a +:+ b) with (String x (a +:+ b)). by cbn.
Qed.

Lemma take_all (a : string) n : (String.length a ≤ n)%nat → take n a = a.
Proof.
  revert n; induction a as [|x a IH]; intros [|n] Hn; cbn in *; try done; try lia.
  rewrite IH; [done | lia].
Qed.

Lemma length_take n (a : string) :
  String.length (take n a) = Nat.min n (String.length a).
Proof.
  revert a; induction n as [|n IH]; intros [|x a]; cbn; try done. by rewrite IH.
Qed.

Lemma length_skip n (a : string) :
  String.length (skip n a) = (String.length a - n)%nat.
Proof.
  revert a; induction n as [|n IH]; intros [|x a]; cbn; auto with lia.
Qed.

Lemma length_zeros n : String.length (zeros n) = n.
Proof. induction n as [|n IH]; cbn; [done | by rewrite IH]. Qed.

(** The C string in an array that starts with text and goes on with a
    NUL, or ends there. *)
Lemma c_str_text_nul w rest :
  all_chars not_nul w = true → c_str (w +:+ String NUL rest) = w.
Proof.
  induction w as [|x w IH]; [done|].
  change (String x w +:+ ?y) with (String x (w +:+ y)). cbn.
  intros [Hx Hw]%andb_prop. unfold not_nul in Hx. apply negb_true_iff in Hx.
  by rewrite Hx, IH.
Qed.

Lemma c_str_text_zeros w m :
  all_chars not_nul w = true → c_str (w +:+ zeros m) = w.
Proof.
  intros Hw. destruct m as [|m].
  - cbn [zeros]. rewrite append_empty_r. by apply c_str_no_nul.
  - by apply c_str_text_nul.
Qed.

Lemma sys_send_all socket buf n (s : OS.state) :
  sends_all s → (0 < n)%nat →
  sys_send socket buf n s =
    Some (Z.of_nat n, OS.set_sent (OS.sent s ++ [(socket, take n buf)]) s).
Proof.
  intros Hall Hn. unfold sys_send. rewrite Hall.
  destruct (Z.leb_spec (Z.of_nat n) 0) as [|_]; [lia|].
  by rewrite Z.min_id, Nat2Z.id.
Qed.

Lemma sys_send_nothing socket buf n (s : OS.state) :
  sends_nothing s →
  ∃ rt, rt ≤ 0 ∧ sys_send socket buf n s = Some (rt, s).
Proof.
  intros Hnone. unfold sys_send. specialize (Hnone (Z.of_nat n)).
  destruct (Z.leb_spec (OS.send_result (OS.plan s) (Z.of_nat n)) 0); [|lia].
  eauto.
Qed.

Lemma select_branch_get d : op d = SERVER_OP_GET → select_branch d = Branch_get.
Proof. unfold select_branch. intros ->. done. Qed.

Lemma select_branch_set d : op d = SERVER_OP_SET → select_branch d = Branch_set.
Proof. unfold select_branch. intros ->. done. Qed.

Lemma select_branch_del d : op d = SERVER_OP_DEL → select_branch d = Branch_del.
Proof. unfold select_branch. intros ->. done. Qed.

(** The response to a result [SERVER_E_NOT_FOUND]. *)
Lemma respond_not_found socket d buffer (s : OS.state) :
  sends_all s →
  respond socket d SERVER_E_NOT_FOUND buffer s =
    Some (SERVER_E_NOT_FOUND,
          OS.set_sent (OS.sent s ++ [(socket, NOTFOUND_BYTES)]) s).
Proof.
  intros Hall. unfold respond. sys_unfold.
  case_decide; [done|]. case_decide; [|done].
  rewrite sys_send_all by (done || (unfold sizeof_literal; lia)). reflexivity.
Qed.


(** The response to a result [SERVER_OK] of GET, the buffer holding a text
    that leaves room for the newline and the NUL. *)
Lemma respond_ok_get socket d v m (s : OS.state) :
  sends_all s → op d = SERVER_OP_GET →
  all_chars not_nul v = true → (2 ≤ m)%nat →
  respond socket d SERVER_OK (v +:+ zeros m) s =
    Some (SERVER_OK,
          OS.set_sent (OS.sent s ++ [(socket, OK_BYTES); (socket, line v)]) s).
Proof.
  intros Hall Hop Hv Hm. unfold respond. sys_unfold. case_decide; [|done].
  rewrite sys_send_all by (done || (unfold sizeof_literal; lia)).
  change (Z.of_nat (sizeof_literal SERVER_OK_RESPONSE) <=? 0) with false.
  cbv iota. case_decide as Hget; [|destruct Hget; split; [done | reflexivity]].
  unfold strcat_array, strlen_array, strlen.
  rewrite (c_str_text_zeros v m Hv), length_app, length_zeros.
  case_decide as Hfit; [|cbn in Hfit; lia].
  rewrite take_app.
  set (tail := skip _ _). sys_unfold. cbv beta iota.
  assert (Hline : c_str (v +:+ String LF EmptyString +:+ String NUL tail) = line v).
  { rewrite <- append_assoc. apply c_str_text_nul.
    unfold line. rewrite all_chars_app. by rewrite Hv. }
  rewrite Hline.
  assert (Hlen : String.length (v +:+ String LF EmptyString +:+ String NUL tail)
                 = (String.length v + 2 + String.length tail)%nat).
  { rewrite !length_app. cbn. lia. }
  case_decide as Hin; [|unfold line in Hin; rewrite Hlen, length_app in Hin; cbn in Hin; lia].
  cbv beta iota.
  assert (Hall' : sends_all (OS.set_sent (OS.sent s ++ [(socket, take
             (sizeof_literal SERVER_OK_RESPONSE) (literal SERVER_OK_RESPONSE))]) s))
    by exact Hall.
  rewrite sys_send_all; [|done | unfold line; rewrite length_app; cbn; lia].
  assert (Htake : take (String.length (line v))
                    (v +:+ String LF EmptyString +:+ String NUL tail) = line v).
  { rewrite <- append_assoc. apply (take_app (line v)). }
  rewrite Htake.
  destruct (Z.leb_spec (Z.of_nat (String.length (line v))) 0) as [Hz|_].
  { unfold line in Hz; rewrite length_app in Hz; cbn in Hz; lia. }
  cbn [OS.set_sent OS.sent OS.files OS.fds OS.plan]. unfold OS.set_sent. cbn.
  by rewrite <- app_assoc.
Qed.

End WireFacts.

Section ProcessRuns.

Lemma all_chars_take p n s : all_chars p s = true → all_chars p (take n s) = true.
Proof.
  revert s; induction n as [|n IH]; intros [|c s]; cbn; try done.
  intros [-> ?]%andb_prop. cbn. auto.
Qed.

Lemma take_skip n (s : string) : take n s +:+ skip n s = s.
Proof.
  revert s; induction n as [|n IH]; intros [|c s]; cbn; try done.
  change (String c (take n s) +:+ skip n s) with (String c (take n s +:+ skip n s)).
  by rewrite IH.
Qed.

(** GET of a stored text through [server_op_process], up to the backend:
    the local buffer after [read]. *)
Lemma run_backend_get d content (s : OS.state) :
  op d = SERVER_OP_GET →
  readable s (arg d 0) = Some content →
  let n := Nat.min 128 (String.length content) in
  OS.read_result (OS.plan s) (Z.of_nat n) = Z.of_nat n →
  ∃ s1, run_backend d (zeros 128) s =
      Some ((if decide (n = O) then SERVER_E_NOT_FOUND else SERVER_OK,
             take n content +:+ zeros (128 - n)), s1) ∧
    OS.files s1 = OS.files s ∧ OS.plan s1 = OS.plan s ∧ OS.sent s1 = OS.sent s.
Proof.
  intros Hop Hread n Hall. unfold run_backend. rewrite (select_branch_get _ Hop).
  rewrite length_zeros.
  pose proof (server_read_key_value_run d (zeros 128) 128 s) as Hrun.
  rewrite Hread in Hrun. cbv zeta in Hrun.
  assert (Hcnt : read_count s content 128 = Z.of_nat n).
  { unfold read_count. fold n. rewrite Hall.
    destruct (Z.ltb_spec (Z.of_nat n) 0); lia. }
  rewrite Hcnt in Hrun. destruct Hrun as (s1 & Hrun & Hfiles & Hplan & Hsent).
  exists s1. split_and!; [|done..]. rewrite Hrun, Nat2Z.id, skip_zeros.
  destruct (Z.ltb_spec (Z.of_nat n) 0) as [|_]; [lia|].
  destruct (Z.eqb_spec (Z.of_nat n) 0); case_decide; try lia; done.
Qed.

Lemma server_op_process_get_found socket d v (s : OS.state) :
  op d = SERVER_OP_GET →
  readable s (arg d 0) = Some v →
  all_chars not_nul v = true →
  (0 < String.length v ≤ 126)%nat →
  OS.read_result (OS.plan s) (Z.of_nat (String.length v)) = Z.of_nat (String.length v) →
  sends_all s →
  ∃ s', server_op_process socket (Some d) s = Some (SERVER_OK, s') ∧
    OS.sent s' = OS.sent s ++ [(socket, OK_BYTES); (socket, line v)] ∧
    OS.files s' = OS.files s ∧ OS.plan s' = OS.plan s.
Proof.
  intros Hop Hread Hv Hlen Hrd Hall.
  assert (Hmin : Nat.min 128 (String.length v) = String.length v) by lia.
  destruct (run_backend_get d v s Hop Hread) as (s1 & Hrun & Hfiles & Hplan & Hsent).
  { by rewrite Hmin. }
  rewrite Hmin, take_length in Hrun.
  unfold server_op_process. sys_unfold. rewrite Hrun.
  case_decide; [lia|].
  assert (Hall1 : sends_all s1) by (intros n; rewrite Hplan; apply Hall).
  rewrite (respond_ok_get socket d v _ s1 Hall1 Hop Hv) by lia.
  eexists. split; [reflexivity|]. cbn. by rewrite Hsent, Hfiles, Hplan.
Qed.

End ProcessRuns.

(** X7: the response to a GET that finds its key.  For a stored text [v] of
    1 to 126 bytes without NUL, on a system that delivers the bytes and takes
    what is sent, [server_op_process] returns [SERVER_OK] after two calls of
    [send]: the four bytes of the OK response, then [v] and a newline; the
    store is not changed. *)
Theorem get_response_on_the_wire (socket : Z) (d : server_op_t) (v : string)
    (s : OS.state) :
  op d = SERVER_OP_GET →
  readable s (arg d 0) = Some v →
  all_chars not_nul v = true →
  (0 < String.length v ≤ 126)%nat →
  OS.read_result (OS.plan s) (Z.of_nat (String.length v)) = Z.of_nat (String.length v) →
  sends_all s →
  ∃ s', server_op_process socket (Some d) s = Some (SERVER_OK, s') ∧
    OS.sent s' = OS.sent s ++ [(socket, OK_BYTES); (socket, line v)] ∧
    OS.files s' = OS.files s.
Proof.
  intros Hop Hread Hv Hlen Hrd Hall.
  destruct (server_op_process_get_found socket d v s Hop Hread Hv Hlen Hrd Hall)
    as (s' & ? & ? & ? & _).
  by exists s'.
Qed.

Lemma get_response_on_the_wire_witness :
  let d := {| op := SERVER_OP_GET; args := [Some "x"; None] |} in
  ∃ s', server_op_process 7 (Some d) one_unit_42 = Some (SERVER_OK, s') ∧
    OS.sent s' = [(7, OK_BYTES); (7, line "42")] ∧
    OS.files s' = OS.files one_unit_42.
Proof.
  intros d.
  apply (get_response_on_the_wire 7 d "42" one_unit_42); try done.
  cbn. lia.
Defined.

(** X8: the response buffer of [server_op_process] has 128 bytes and GET
    reads up to 128 into it.  When the unit of the key holds 127 bytes or
    more, none of them NUL, the [strcat] of the newline writes past the end
    of the buffer: the behaviour of the server is undefined from there. *)
Theorem get_of_long_value_overruns_buffer (socket : Z) (d : server_op_t)
    (content : string) (s : OS.state) :
  op d = SERVER_OP_GET →
  readable s (arg d 0) = Some content →
  all_chars not_nul content = true →
  (127 ≤ String.length content)%nat →
  (let n := Nat.min 128 (String.length content) in
   OS.read_result (OS.plan s) (Z.of_nat n) = Z.of_nat n) →
  sends_all s →
  server_op_process socket (Some d) s = None.
Proof.
  intros Hop Hread Hv Hlen Hrd Hall. cbv zeta in Hrd.
  destruct (run_backend_get d content s Hop Hread Hrd)
    as (s1 & Hrun & _ & Hplan & _).
  set (n := Nat.min 128 (String.length content)) in *.
  assert (Hn : (127 ≤ n ≤ 128 ∧ n ≤ String.length content)%nat) by lia.
  clearbody n.
  unfold server_op_process. sys_unfold. rewrite Hrun.
  case_decide; [lia|].
  assert (Hall1 : sends_all s1) by (intros m; rewrite Hplan; apply Hall).
  unfold respond. sys_unfold. case_decide; [|done].
  rewrite sys_send_all by (done || (unfold sizeof_literal; lia)).
  change (Z.of_nat (sizeof_literal SERVER_OK_RESPONSE) <=? 0) with false.
  cbv iota. case_decide as Hget; [|destruct Hget; split; [done | reflexivity]].
  unfold strcat_array, strlen.
  rewrite (c_str_text_zeros _ _ (all_chars_take _ n _ Hv)).
  rewrite length_app, length_zeros, length_take.
  case_decide as Hfit; [cbn [String.length] in Hfit; lia | done].
Qed.

Lemma get_of_long_value_overruns_buffer_witness :
  let d := {| op := SERVER_OP_GET; args := [Some "k"; None] |} in
  let big := String.concat EmptyString (replicate 127 "a") in
  server_op_process 7 (Some d) (OS.set_files {[ "k" := big ]} (OS.boot OS.no_faults))
    = None.
Proof.
  intros d big.
  apply (get_of_long_value_overruns_buffer 7 d big); done.
Defined.

Section ProcessRuns2.

(** No call changes what the system will do to later calls. *)
Lemma sys_open_plan path flags (s : OS.state) a s' :
  sys_open path flags s = Some (a, s') → OS.plan s' = OS.plan s.
Proof.
  unfold sys_open. destruct path as [mem|]; [|by intros [= _ <-]].
  cbv zeta. case_decide; [by intros [= _ <-]|].
  destruct (OS.open_fails _ _); [by intros [= _ <-]|].
  destruct flags; [|by intros [= _ <-]].
  destruct (OS.files s !! c_str mem); by intros [= _ <-].
Qed.

Lemma sys_write_plan fd buf n (s : OS.state) a s' :
  sys_write fd buf n s = Some (a, s') → OS.plan s' = OS.plan s.
Proof.
  unfold sys_write. destruct (OS.fds s !! fd) as [[name off []]|];
    try by intros [= _ <-].
  cbv zeta. destruct (_ <? 0); by intros [= _ <-].
Qed.

Lemma sys_read_plan fd buf n (s : OS.state) a s' :
  sys_read fd buf n s = Some (a, s') → OS.plan s' = OS.plan s.
Proof.
  unfold sys_read. destruct (OS.fds s !! fd) as [[name off []]|];
    try by intros [= _ <-].
  cbv zeta. destruct (_ <? 0); by intros [= _ <-].
Qed.

Lemma sys_close_plan fd (s : OS.state) a s' :
  sys_close fd s = Some (a, s') → OS.plan s' = OS.plan s.
Proof. unfold sys_close. destruct (OS.fds s !! fd); by intros [= _ <-]. Qed.

Lemma sys_remove_plan path (s : OS.state) a s' :
  sys_remove path s = Some (a, s') → OS.plan s' = OS.plan s.
Proof.
  unfold sys_remove. destruct path as [mem|]; [|by intros [= _ <-]].
  cbv zeta. destruct (OS.remove_fails _ _); [by intros [= _ <-]|].
  destruct (OS.files s !! c_str mem); by intros [= _ <-].
Qed.

(** The backend leaves the plan alone, and hands the buffer back untouched
    with every result but those of GET. *)
Lemma run_backend_plan d buffer (s : OS.state) err b s1 :
  run_backend d buffer s = Some ((err, b), s1) →
  OS.plan s1 = OS.plan s ∧ (err = SERVER_E_OS → b = buffer).
Proof.
  unfold run_backend. destruct (select_branch d); sys_unfold.
  - unfold server_write_key_value. sys_unfold.
    destruct (sys_open _ _ s) as [[fd s2]|] eqn:E1; [|done].
    apply sys_open_plan in E1.
    destruct (fd <? 0); [intros [= <- <- <-]; by split|].
    destruct (arg d 1) as [v|]; [|done].
    destruct (sys_write _ _ _ s2) as [[cnt s3]|] eqn:E2; [|done].
    apply sys_write_plan in E2.
    destruct (sys_close _ s3) as [[? s4]|] eqn:E3; [|done].
    apply sys_close_plan in E3.
    intros [= <- <- <-]. split; [congruence | done].
  - unfold server_read_key_value. sys_unfold.
    destruct (sys_open _ _ s) as [[fd s2]|] eqn:E1; [|done].
    apply sys_open_plan in E1.
    destruct (fd <? 0); [intros [= <- <- <-]; by split|].
    destruct (sys_read _ _ _ s2) as [[[cnt b1] s3]|] eqn:E2; [|done].
    apply sys_read_plan in E2.
    destruct (sys_close _ s3) as [[? s4]|] eqn:E3; [|done].
    apply sys_close_plan in E3.
    intros [= <- <- <-]. split; [congruence|]. by destruct (cnt =? 0).
  - unfold server_delete_key_value. sys_unfold.
    destruct (sys_remove _ s) as [[st s2]|] eqn:E1; [|done].
    apply sys_remove_plan in E1. intros [= <- <- <-]. by split.
  - intros [= <- <- <-]. by split.
Qed.

(** The [ERROR:] response for [SERVER_E_OS], built in a zeroed buffer. *)
Lemma respond_error_os socket d (s : OS.state) :
  respond socket d SERVER_E_OS (zeros 128) s =
    (rt ← sys_send socket ("ERROR:1" +:+ zeros 121) 7;
     mret (if rt <=? 0 then SERVER_E_OS else SERVER_E_OS)) s.
Proof. reflexivity. Qed.

End ProcessRuns2.

(** X9: the response to a key that is not there.  When GET finds no unit it
    can open, or DEL none it can remove, [server_op_process] returns
    [SERVER_E_NOT_FOUND] after one call of [send] with the ten bytes of the
    NOTFOUND response, terminating NUL included, and changes nothing else. *)
Theorem not_found_response_on_the_wire (socket : Z) (d : server_op_t)
    (s : OS.state) :
  (op d = SERVER_OP_GET ∧ readable s (arg d 0) = None) ∨
  (op d = SERVER_OP_DEL ∧ removable s (arg d 0) = false) →
  sends_all s →
  server_op_process socket (Some d) s =
    Some (SERVER_E_NOT_FOUND,
          OS.set_sent (OS.sent s ++ [(socket, "NOTFOUND" +:+ String LF (String NUL EmptyString))]) s).
Proof.
  intros Hcase Hall. unfold server_op_process, run_backend. sys_unfold.
  destruct Hcase as [[Hop Hno]|[Hop Hno]].
  - rewrite (select_branch_get _ Hop).
    pose proof (server_read_key_value_run d (zeros 128)
                  (String.length (zeros 128)) s) as Hrun.
    rewrite Hno in Hrun. rewrite Hrun.
    by rewrite respond_not_found.
  - rewrite (select_branch_del _ Hop).
    pose proof (server_delete_key_value_run d s) as Hrun.
    rewrite Hno in Hrun. rewrite Hrun.
    by rewrite respond_not_found.
Qed.

Lemma not_found_response_on_the_wire_witness :
  let d := {| op := SERVER_OP_DEL; args := [Some "nokey"; None] |} in
  server_op_process 7 (Some d) (OS.boot OS.no_faults) =
    Some (SERVER_E_NOT_FOUND,
          OS.set_sent [(7, "NOTFOUND" +:+ String LF (String NUL EmptyString))]
            (OS.boot OS.no_faults)).
Proof.
  intros d.
  apply (not_found_response_on_the_wire 7 d (OS.boot OS.no_faults)); [|done].
  right. done.
Defined.

(** X10: a client socket that takes nothing.  Whatever the backend did, and
    it has done it, [server_op_process] sends nothing and returns
    [SERVER_E_OS]; after a failed OK response the value of a GET is not
    attempted. *)
Theorem send_failure_gives_os_error (socket : Z) (d : server_op_t)
    (s s1 : OS.state) (err : server_err_t) (b : string) :
  sends_nothing s →
  run_backend d (zeros 128) s = Some ((err, b), s1) →
  server_op_process socket (Some d) s = Some (SERVER_E_OS, s1).
Proof.
  intros Hnone Hrun. unfold server_op_process. sys_unfold. rewrite Hrun.
  destruct (run_backend_plan _ _ _ _ _ _ Hrun) as [Hplan Hbuf].
  assert (Hnone1 : sends_nothing s1) by (intros n; rewrite Hplan; apply Hnone).
  apply run_backend_codes in Hrun.
  destruct Hrun as [->|[->| ->]].
  - unfold respond. sys_unfold. case_decide; [|done].
    destruct (sys_send_nothing socket (literal SERVER_OK_RESPONSE)
                (sizeof_literal SERVER_OK_RESPONSE) s1 Hnone1) as (rt & Hrt & ->).
    destruct (Z.leb_spec rt 0); [|lia].
    case_decide as Hget; [lia | done].
  - rewrite (Hbuf eq_refl), respond_error_os. sys_unfold.
    destruct (sys_send_nothing socket ("ERROR:1" +:+ zeros 121) 7 s1 Hnone1)
      as (rt & Hrt & ->).
    by destruct (rt <=? 0).
  - unfold respond. sys_unfold. case_decide; [done|]. case_decide; [|done].
    destruct (sys_send_nothing socket (literal SERVER_NOTFOUND_RESPONSE)
                (sizeof_literal SERVER_NOTFOUND_RESPONSE) s1 Hnone1) as (rt & Hrt & ->).
    destruct (Z.leb_spec rt 0); [done | lia].
Qed.

Lemma send_failure_gives_os_error_witness :
  let d := {| op := SERVER_OP_SET; args := [Some "k"; Some "v"] |} in
  ∃ s1, OS.files s1 !! "k" = Some "v" ∧ OS.sent s1 = [] ∧
    server_op_process 7 (Some d) (OS.boot peer_gone) = Some (SERVER_E_OS, s1).
Proof.
  intros d. eexists. split_and!; [| |
    apply (send_failure_gives_os_error 7 d (OS.boot peer_gone) _ SERVER_OK (zeros 128));
      [intros n; cbn; lia | vm_compute; reflexivity]]; reflexivity.
Defined.

(** X11: the response to a SET that cannot open its unit: the result is
    [SERVER_E_OS], the client is sent the seven bytes [ERROR:1], and the
    store is not changed. *)
Theorem set_failure_response_on_the_wire (socket : Z) (d : server_op_t)
    (v : string) (s : OS.state) :
  op d = SERVER_OP_SET → arg d 1 = Some v →
  creatable s (arg d 0) = false →
  sends_all s →
  server_op_process socket (Some d) s =
    Some (SERVER_E_OS, OS.set_sent (OS.sent s ++ [(socket, "ERROR:1")]) s).
Proof.
  intros Hop Hv Hno Hall. unfold server_op_process, run_backend. sys_unfold.
  rewrite (select_branch_set _ Hop).
  pose proof (server_write_key_value_run d v s Hv) as Hrun.
  rewrite Hno in Hrun. rewrite Hrun, respond_error_os. sys_unfold.
  rewrite sys_send_all by (done || lia). reflexivity.
Qed.

Lemma set_failure_response_on_the_wire_witness :
  let d := {| op := SERVER_OP_SET; args := [Some "k"; Some "v"] |} in
  server_op_process 7 (Some d) (OS.boot read_only_store) =
    Some (SERVER_E_OS, OS.set_sent [(7, "ERROR:1")] (OS.boot read_only_store)).
Proof.
  intros d.
  apply (set_failure_response_on_the_wire 7 d "v" (OS.boot read_only_store));
    done.
Defined.

(** ** Whole messages, and sequences of them *)

Section SessionFacts.








End SessionFacts.



(** X13: the loop ends at the first zero returned by [recv]: whatever the
    stream holds after it is never looked at. *)
Theorem recv_loop_ends_at_zero (newfd : Z) (before after : list (Z * string))
    (received : string) (s : OS.state) :
  dict_server_recv_loop newfd (before ++ (0, received) :: after) s
  = dict_server_recv_loop newfd before s.
Proof.
  revert s; induction before as [|[len m] before IH]; intros s; [done|].
  cbn [app dict_server_recv_loop].
  destruct (len =? 0); [done|]. destruct (len <? 0); [apply IH|].
  sys_unfold. destruct (dict_server_dispatch newfd m s) as [[? s1]|]; [apply IH | done].
Qed.

(** X14: errors of [recv], and messages that the parser rejects without a
    store outside the digest, leave no trace: the loop does to the system
    what it does on the stream without them.  Messages rejected after such a
    store are not passed over: they stay in both streams, where the run has
    no defined behaviour. *)
Theorem recv_loop_passes_over_garbage (newfd : Z) (inbox : list (Z * string))
    (s : OS.state) :
  dict_server_recv_loop newfd (filter (λ e, passed_over e = false) inbox) s
  = dict_server_recv_loop newfd inbox s.
Proof.
  revert s; induction inbox as [|[len m] inbox IH]; intros s; [done|].
  destruct (passed_over (len, m)) eqn:Hp.
  - rewrite filter_cons_False by (by rewrite Hp). rewrite IH.
    unfold passed_over in Hp; cbv zeta in Hp; cbn [fst snd] in Hp.
    cbn [dict_server_recv_loop].
    destruct (Z.ltb_spec len 0) as [Hneg|Hpos].
    + destruct (Z.eqb_spec len 0); [lia | done].
    + cbn [orb] in Hp. apply andb_prop in Hp as [Hp Hrej].
      apply andb_prop in Hp as [Hp Hover].
      apply andb_prop in Hp as [Hlen Hfit].
      apply bool_decide_eq_true in Hrej. apply bool_decide_eq_true in Hover.
      apply bool_decide_eq_true in Hfit.
      destruct (Z.eqb_spec len 0); [lia|].
      sys_unfold. by rewrite dict_server_dispatch_rejected.
  - rewrite filter_cons_True by done. cbn [dict_server_recv_loop].
    destruct (len =? 0); [done|]. destruct (len <? 0); [apply IH|].
    sys_unfold. destruct (dict_server_dispatch newfd m s) as [[? s1]|]; [apply IH | done].
Qed.

(** A message with three arguments is rejected only after its third token
    was stored past [args]: it is not passed over, and its dispatch has no
    defined behaviour. *)
Example third_argument_is_not_passed_over :
  passed_over (10, line "GET a b c") = false ∧
  dict_server_dispatch 7 (line "GET a b c") (OS.boot OS.no_faults) = None.
Proof. by vm_compute. Qed.

(** * Properties of the GPIO module *)

Module GpioFacts.
Import Gpio.

Section Allocation.

(** What the loop of [gpioAllocate] returns, when it returns an instance:
    one that was not in use, marked in use, the array being otherwise as it
    was; and the array as it was when it returns the null pointer. *)
Lemma gpioAllocate_from_some fuel idx arr :
  match gpioAllocate_from fuel idx arr with
  | (Some j, arr') =>
    (idx ≤ j < idx + fuel)%nat ∧
    ∃ g, arr !! j = Some g ∧ used g = false ∧
         arr' = <[j := mk_gpio (port g) (bit g) (output g) true]> arr
  | (None, arr') => arr' = arr
  end.
Proof.
  revert idx; induction fuel as [|fuel IH]; intros idx; cbn; [done|].
  destruct (arr !! idx) as [g|] eqn:E; [|done].
  destruct (used g) eqn:Hu.
  - specialize (IH (S idx)). destruct (gpioAllocate_from fuel (S idx) arr) as [[j|] arr'];
      [|done]. destruct IH as [Hj IH]. split; [lia | done].
  - split; [lia|]. by exists g.
Qed.

(** The instances the loop went past are in use. *)
Lemma gpioAllocate_from_skipped fuel idx arr (Hfit : (idx + fuel ≤ length arr)%nat) :
  ∀ i g, arr !! i = Some g →
    match (gpioAllocate_from fuel idx arr).1 with
    | Some j => (idx ≤ i < j)%nat → used g = true
    | None => (idx ≤ i < idx + fuel)%nat → used g = true
    end.
Proof.
  revert idx Hfit; induction fuel as [|fuel IH]; intros idx Hfit i g Hi; cbn; [lia|].
  destruct (arr !! idx) as [g0|] eqn:E.
  - destruct (used g0) eqn:Hu; cbn; [|lia].
    specialize (IH (S idx) ltac:(lia) i g Hi).
    destruct (gpioAllocate_from fuel (S idx) arr).1 as [j|]; intros Hr;
      (destruct (decide (i = idx)) as [->|]; [congruence | apply IH; lia]).
  - apply lookup_ge_None in E. lia.
Qed.

Lemma gpioCreate_some p b st i st' :
  gpioCreate p b st = (Some i, st') →
  (∃ g, instances st !! i = Some g ∧ used g = false) ∧
  instances st' = <[i := mk_gpio p b false true]> (instances st) ∧
  hal_log st' = hal_log st ∧ pins st' = pins st.
Proof.
  unfold gpioCreate, gpioAllocate.
  pose proof (gpioAllocate_from_some MAX_GPIO_INSTANCES 0 (instances st)) as H.
  destruct (gpioAllocate_from _ _ _) as [[j|] arr']; [|done].
  destruct H as (_ & g & Hg & Hu & ->). intros [= <- <-]. cbn.
  split; [by exists g|]. split; [|done].
  apply list_eq. intros k. rewrite list_lookup_alter.
  destruct (decide (j = k)) as [<-|Hne].
  - rewrite !list_lookup_insert_eq by (by eapply lookup_lt_Some). done.
  - by rewrite !list_lookup_insert_ne.
Qed.

Lemma gpioCreate_none p b st st' :
  gpioCreate p b st = (None, st') → st' = st.
Proof.
  unfold gpioCreate, gpioAllocate.
  pose proof (gpioAllocate_from_some MAX_GPIO_INSTANCES 0 (instances st)) as H.
  destruct (gpioAllocate_from _ _ _) as [[j|] arr']; [done|].
  subst arr'. intros [= <-]. by destruct st.
Qed.

End Allocation.

(** X15: [gpioCreate] hands out the first instance of the array that is not
    in use, marks it and sets its port and bit, as an input; every other
    instance is as it was and the hardware is not touched.  It returns the
    null pointer, and changes nothing, exactly when all the
    [MAX_GPIO_INSTANCES] instances are in use. *)
Theorem create_takes_first_free_instance (p b : Z) (st : world) :
  length (instances st) = MAX_GPIO_INSTANCES →
  match gpioCreate p b st with
  | (Some i, st') =>
    (i < MAX_GPIO_INSTANCES)%nat ∧
    (∃ g, instances st !! i = Some g ∧ used g = false) ∧
    (∀ j g, (j < i)%nat → instances st !! j = Some g → used g = true) ∧
    instances st' = <[i := mk_gpio p b false true]> (instances st) ∧
    hal_log st' = hal_log st
  | (None, st') =>
    st' = st ∧ Forall (λ g, used g = true) (instances st)
  end.
Proof.
  intros Hlen.
  pose proof (gpioAllocate_from_some MAX_GPIO_INSTANCES 0 (instances st)) as Hsome.
  pose proof (gpioAllocate_from_skipped MAX_GPIO_INSTANCES 0 (instances st)
                ltac:(lia)) as Hskip.
  destruct (gpioCreate p b st) as [[i|] st'] eqn:E.
  - destruct (gpioCreate_some _ _ _ _ _ E) as (Hfree & Hinst & Hlog & _).
    unfold gpioCreate, gpioAllocate in E.
    destruct (gpioAllocate_from _ _ _) as [[j|] arr']; [|done].
    injection E as <- _. destruct Hsome as (Hj & _).
    split_and!; try done; [lia|].
    intros k g Hk Hg. apply (Hskip k g Hg). cbn. lia.
  - split; [by eapply gpioCreate_none|].
    unfold gpioCreate, gpioAllocate in E.
    destruct (gpioAllocate_from _ _ _) as [[j|] arr']; [done|].
    apply Forall_lookup. intros k g Hg. apply (Hskip k g Hg). cbn.
    apply lookup_lt_Some in Hg. lia.
Qed.

Lemma create_takes_first_free_instance_witness :
  (gpioCreate 2 5 (start (λ _ _, false))).1 = Some 0%nat.
Proof.
  pose proof (create_takes_first_free_instance 2 5 (start (λ _ _, false)) eq_refl) as H.
  destruct (gpioCreate 2 5 (start (λ _ _, false))) as [[i|] st'] eqn:E.
  - destruct H as (_ & _ & Hbefore & _). destruct i as [|i]; [done|].
    by specialize (Hbefore 0%nat (mk_gpio 0 0 false false) ltac:(lia) eq_refl).
  - destruct H as [_ H]. by apply Forall_cons in H as [? _].
Defined.

Section Programs.

(** An instance in use stays in use, with its port and bit, whatever is
    called; and the pins are what they are. *)
Lemma step_keeps_instance c st st' i g :
  step c st = Some st' →
  instances st !! i = Some g → used g = true →
  ∃ g', instances st' !! i = Some g' ∧ used g' = true ∧
        port g' = port g ∧ bit g' = bit g.
Proof.
  intros Hstep Hi Hu. destruct c as [p b|self o|self x|self]; cbn in Hstep.
  - injection Hstep as <-.
    destruct (gpioCreate p b st) as [[j|] st1] eqn:E; cbn.
    + destruct (gpioCreate_some _ _ _ _ _ E) as ((g0 & Hg0 & Hu0) & -> & _).
      destruct (decide (j = i)) as [->|Hne]; [congruence|].
      rewrite list_lookup_insert_ne by done. eauto.
    + apply gpioCreate_none in E as ->. eauto.
  - unfold gpioSetOutput, deref in Hstep. destruct self as [j|]; [|done].
    destruct (instances st !! j) as [g0|] eqn:Hj; [|done].
    injection Hstep as <-. cbn.
    destruct (decide (j = i)) as [->|Hne].
    + rewrite list_lookup_insert_eq by (by eapply lookup_lt_Some).
      assert (g0 = g) as -> by congruence. eauto.
    + rewrite list_lookup_insert_ne by done. eauto.
  - unfold gpioSetState, deref in Hstep. destruct self as [j|]; [|done].
    destruct (instances st !! j) as [g0|]; [|done].
    destruct (output g0); injection Hstep as <-; cbn; eauto.
  - unfold gpioGetState, deref in Hstep. destruct self as [j|]; [|done].
    destruct (instances st !! j) as [g0|]; [|done].
    injection Hstep as <-; cbn; eauto.
Qed.

Lemma step_pins c st st' : step c st = Some st' → pins st' = pins st.
Proof.
  destruct c as [p b|self o|self x|self]; cbn.
  - intros [= <-]. destruct (gpioCreate p b st) as [[j|] st1] eqn:E; cbn.
    + by destruct (gpioCreate_some _ _ _ _ _ E) as (_ & _ & _ & ?).
    + by apply gpioCreate_none in E as ->.
  - unfold gpioSetOutput. destruct (deref self st) as [[i g]|]; [|done].
    by intros [= <-].
  - unfold gpioSetState. destruct (deref self st) as [[i g]|]; [|done].
    destruct (output g); by intros [= <-].
  - unfold gpioGetState. destruct (deref self st) as [[i g]|]; [|done].
    by intros [= <-].
Qed.

Lemma run_keeps_instance cs st st' i g :
  run cs st = Some st' →
  instances st !! i = Some g → used g = true →
  ∃ g', instances st' !! i = Some g' ∧ used g' = true ∧
        port g' = port g ∧ bit g' = bit g.
Proof.
  revert st g; induction cs as [|c cs IH]; intros st g; cbn.
  - intros [= <-]. eauto.
  - destruct (step c st) as [st1|] eqn:E; [|done]. intros Hrun Hi Hu.
    destruct (step_keeps_instance _ _ _ _ _ E Hi Hu) as (g1 & Hi1 & Hu1 & <- & <-).
    eauto.
Qed.

Lemma run_pins cs st st' : run cs st = Some st' → pins st' = pins st.
Proof.
  revert st; induction cs as [|c cs IH]; intros st; cbn; [by intros [= <-]|].
  destruct (step c st) as [st1|] eqn:E; [|done]. intros Hrun.
  rewrite (IH _ Hrun). by eapply step_pins.
Qed.

(** What a call adds to the calls made to the hardware layer. *)
Lemma step_log c st st' :
  step c st = Some st' →
  ∃ new, hal_log st' = hal_log st ++ new ∧
    Forall (λ h, ∀ p b a, h ≠ Hal_set_output p b a) new.
Proof.
  destruct c as [p b|self o|self x|self]; cbn.
  - intros [= <-]. exists []. rewrite app_nil_r. split; [|done].
    destruct (gpioCreate p b st) as [[j|] st1] eqn:E; cbn.
    + by destruct (gpioCreate_some _ _ _ _ _ E) as (_ & _ & ? & _).
    + by apply gpioCreate_none in E as ->.
  - unfold gpioSetOutput. destruct (deref self st) as [[i g]|]; [|done].
    intros [= <-]. eexists. split; [done|]. by repeat constructor.
  - unfold gpioSetState. destruct (deref self st) as [[i g]|]; [|done].
    destruct (output g); intros [= <-].
    + eexists. split; [done|]. by repeat constructor.
    + exists []. by rewrite app_nil_r.
  - unfold gpioGetState. destruct (deref self st) as [[i g]|]; [|done].
    intros [= <-]. eexists. split; [done|]. by repeat constructor.
Qed.

End Programs.

(** X16: a handle keeps its instance and its pin.  After [gpioCreate]
    returned an instance for a port and a bit, whatever calls of the module
    follow: the instance is still in use with that port and that bit, no
    later [gpioCreate] returns it again, and [gpioGetState] on the handle
    reads that pin. *)
Theorem handle_keeps_its_pin (p b : Z) (st st1 st2 : world) (i : nat)
    (cs : list call) :
  gpioCreate p b st = (Some i, st1) →
  run cs st1 = Some st2 →
  (∃ g, instances st2 !! i = Some g ∧ used g = true ∧ port g = p ∧ bit g = b) ∧
  (∀ p' b' j st3, gpioCreate p' b' st2 = (Some j, st3) → j ≠ i) ∧
  fst <$> gpioGetState (Some i) st2 = Some (pins st p b).
Proof.
  intros Hcreate Hrun.
  destruct (gpioCreate_some _ _ _ _ _ Hcreate) as ((g0 & Hg0 & _) & Hinst & _ & Hpins).
  assert (Hi : instances st1 !! i = Some (mk_gpio p b false true)).
  { rewrite Hinst. apply list_lookup_insert_eq. by eapply lookup_lt_Some. }
  destruct (run_keeps_instance _ _ _ _ _ Hrun Hi eq_refl) as (g & Hg & Hu & Hp & Hb).
  cbn in Hp, Hb. split_and!.
  - by exists g.
  - intros p' b' j st3 Hc ->.
    destruct (gpioCreate_some _ _ _ _ _ Hc) as ((g1 & Hg1 & Hu1) & _). congruence.
  - unfold gpioGetState, deref. rewrite Hg. cbn.
    by rewrite (run_pins _ _ _ Hrun), Hpins, Hp, Hb.
Qed.

Lemma handle_keeps_its_pin_witness :
  fst <$> gpioGetState (Some 0%nat)
            (gpioCreate 1 1 (gpioCreate 2 5 (start (λ p b, bool_decide (p = 2)))).2).2
  = Some true.
Proof.
  destruct (handle_keeps_its_pin 2 5 (start (λ p b, bool_decide (p = 2)))
              (gpioCreate 2 5 (start (λ p b, bool_decide (p = 2)))).2
              (gpioCreate 1 1 (gpioCreate 2 5 (start (λ p b, bool_decide (p = 2)))).2).2
              0%nat [Create 1 1] eq_refl eq_refl) as (_ & _ & H).
  exact H.
Defined.

(** X17: no call of the module drives the level of a pin: whatever program
    of calls is run, the calls it adds to those made to the hardware layer
    hold no [hal_gpio_set_output]. *)
Theorem output_level_is_never_driven (cs : list call) (st st' : world) :
  run cs st = Some st' →
  ∃ new, hal_log st' = hal_log st ++ new ∧
    Forall (λ h, ∀ p b a, h ≠ Hal_set_output p b a) new.
Proof.
  revert st; induction cs as [|c cs IH]; intros st; cbn.
  - intros [= <-]. exists []. by rewrite app_nil_r.
  - destruct (step c st) as [st1|] eqn:E; [|done]. intros Hrun.
    destruct (step_log _ _ _ E) as (new1 & Hl1 & Hf1).
    destruct (IH _ Hrun) as (new2 & Hl2 & Hf2).
    exists (new1 ++ new2). split; [by rewrite Hl2, Hl1, app_assoc|].
    by apply Forall_app.
Qed.

Lemma output_level_is_never_driven_witness :
  let st := (gpioCreate 2 5 (start (λ _ _, false))).2 in
  ∃ st' new, run [Set_output (Some 0%nat) true; Set_state (Some 0%nat) true] st = Some st' ∧
    hal_log st' = hal_log st ++ new ∧
    Forall (λ h, ∀ p b a, h ≠ Hal_set_output p b a) new.
Proof.
  intros st. eexists.
  assert (H : run [Set_output (Some 0%nat) true; Set_state (Some 0%nat) true] st
              = Some (mk_world
                  (<[0%nat := mk_gpio 2 5 true true]> (instances st))
                  [Hal_set_direction 2 5 true; Hal_set_direction 2 5 true]
                  (pins st))) by reflexivity.
  destruct (output_level_is_never_driven _ _ _ H) as (new & Hn & Hf).
  exists new. split; [exact H | by split].
Defined.

(** X18: a pin is an input until [gpioSetOutput] says otherwise.  On the
    handle [gpioCreate] returned, [gpioSetState] does nothing at all; after
    [gpioSetOutput] with [true], which sets the direction of the pin,
    [gpioSetState] sets that direction once more, whatever state it is
    given. *)
Theorem set_state_needs_an_output_pin (p b : Z) (x : bool) (st st1 : world)
    (i : nat) :
  gpioCreate p b st = (Some i, st1) →
  gpioSetState (Some i) x st1 = Some st1 ∧
  ∃ st2 st3,
    gpioSetOutput (Some i) true st1 = Some st2 ∧
    hal_log st2 = hal_log st ++ [Hal_set_direction p b true] ∧
    gpioSetState (Some i) x st2 = Some st3 ∧
    hal_log st3 = hal_log st2 ++ [Hal_set_direction p b true] ∧
    instances st3 = instances st2.
Proof.
  intros Hcreate.
  destruct (gpioCreate_some _ _ _ _ _ Hcreate) as ((g0 & Hg0 & _) & Hinst & Hlog & _).
  assert (Hlt : (i < length (instances st))%nat) by (by eapply lookup_lt_Some).
  assert (Hi : instances st1 !! i = Some (mk_gpio p b false true)).
  { rewrite Hinst. by apply list_lookup_insert_eq. }
  split.
  - unfold gpioSetState, deref. by rewrite Hi.
  - unfold gpioSetOutput, deref. rewrite Hi. cbn.
    eexists _, _. split; [reflexivity|]. cbn. split; [by rewrite Hlog|].
    unfold gpioSetState, deref. cbn.
    rewrite list_lookup_insert_eq by (rewrite Hinst, length_insert; done). cbn.
    done.
Qed.

Lemma set_state_needs_an_output_pin_witness :
  let st1 := (gpioCreate 2 5 (start (λ _ _, false))).2 in
  gpioSetState (Some 0%nat) true st1 = Some st1.
Proof.
  intros st1.
  exact (proj1 (set_state_needs_an_output_pin 2 5 true (start (λ _ _, false)) st1
                  0%nat eq_refl)).
Defined.

Section Pool.

Lemma in_use_up_to_create m p b st :
  in_use_up_to m (instances st) →
  if decide (m < MAX_GPIO_INSTANCES)%nat
  then ∃ st', gpioCreate p b st = (Some m, st') ∧ in_use_up_to (S m) (instances st')
  else gpioCreate p b st = (None, st).
Proof.
  intros [Hlen Huse].
  pose proof (create_free := gpioCreate_some p b st).
  pose proof (gpioAllocate_from_some MAX_GPIO_INSTANCES 0 (instances st)) as Hsome.
  pose proof (gpioAllocate_from_skipped MAX_GPIO_INSTANCES 0 (instances st)
                ltac:(lia)) as Hskip.
  destruct (gpioCreate p b st) as [[i|] st'] eqn:E.
  - destruct (create_free i st' eq_refl) as ((g & Hg & Hu) & Hinst & _).
    pose proof (Huse i g Hg) as Hi. rewrite Hu in Hi.
    symmetry in Hi. apply bool_decide_eq_false in Hi.
    assert (Hlt : (i < MAX_GPIO_INSTANCES)%nat)
      by (rewrite <- Hlen; by eapply lookup_lt_Some).
    assert (i = m) as ->.
    { unfold gpioCreate, gpioAllocate in E.
      destruct (gpioAllocate_from _ _ _) as [[j|] arr'] eqn:Ea; [|done].
      injection E as -> _.
      destruct (decide (m < i)%nat) as [Hmi|]; [|lia].
      destruct (lookup_lt_is_Some_2 (instances st) m ltac:(lia)) as [gm Hgm].
      pose proof (Hskip m gm Hgm) as Hs. cbn in Hs. specialize (Hs ltac:(lia)).
      pose proof (Huse m gm Hgm) as Hm. rewrite Hs in Hm.
      symmetry in Hm. apply bool_decide_eq_true in Hm. lia. }
    case_decide; [|lia]. exists st'. split; [done|]. split.
    + by rewrite Hinst, length_insert.
    + intros k gk. rewrite Hinst. destruct (decide (k = m)) as [->|Hne].
      * rewrite list_lookup_insert_eq by lia. intros [= <-]. cbn.
        symmetry. apply bool_decide_eq_true. lia.
      * rewrite list_lookup_insert_ne by done. intros Hk.
        rewrite (Huse k gk Hk). apply bool_decide_ext. lia.
  - apply gpioCreate_none in E as Hst. subst st'.
    case_decide as Hm; [|done]. exfalso.
    unfold gpioCreate, gpioAllocate in E.
    destruct (gpioAllocate_from _ _ _) as [[j|] arr'] eqn:Ea; [done|].
    destruct (lookup_lt_is_Some_2 (instances st) m ltac:(lia)) as [gm Hgm].
    pose proof (Hskip m gm Hgm) as Hs. cbn in Hs. specialize (Hs ltac:(lia)).
    pose proof (Huse m gm Hgm) as Hu. rewrite Hs in Hu.
    symmetry in Hu. apply bool_decide_eq_true in Hu. lia.
Qed.

Lemma in_use_up_to_start pins : in_use_up_to 0 (instances (start pins)).
Proof.
  split; [done|]. intros i g Hi. unfold start in Hi. cbn [instances] in Hi.
  apply lookup_replicate in Hi as [-> _]. cbn.
  symmetry. apply bool_decide_eq_false. lia.
Qed.

Lemma create_many_from m pbs st :
  in_use_up_to m (instances st) → (m ≤ MAX_GPIO_INSTANCES)%nat →
  (create_many pbs st).1 =
    (Some <$> seq m (Nat.min (length pbs) (MAX_GPIO_INSTANCES - m)))
    ++ replicate (length pbs - (MAX_GPIO_INSTANCES - m)) None.
Proof.
  revert m st; induction pbs as [|[p b] pbs IH]; intros m st Huse Hm; [done|].
  cbn [create_many length].
  pose proof (in_use_up_to_create m p b st Huse) as Hc.
  case_decide as Hlt.
  - destruct Hc as (st' & -> & Huse').
    specialize (IH (S m) st' Huse' ltac:(lia)).
    destruct (create_many pbs st') as [rest st'']. cbn [fst] in *. rewrite IH.
    assert (E1 : Nat.min (S (length pbs)) (MAX_GPIO_INSTANCES - m)
                 = S (Nat.min (length pbs) (MAX_GPIO_INSTANCES - S m))) by lia.
    assert (E2 : (S (length pbs) - (MAX_GPIO_INSTANCES - m)
                  = length pbs - (MAX_GPIO_INSTANCES - S m))%nat) by lia.
    rewrite E1, E2. reflexivity.
  - rewrite Hc. specialize (IH m st Huse Hm).
    destruct (create_many pbs st) as [rest st'']. cbn [fst] in *. rewrite IH.
    assert (E0 : (MAX_GPIO_INSTANCES - m = 0)%nat) by lia.
    rewrite E0, !Nat.min_0_r, !Nat.sub_0_r. reflexivity.
Qed.

End Pool.

(** X19: the module has ten instances and never gives one back.  Of the
    creations made in a row from the start, whatever their ports and bits,
    the first ten return the instances 0 to 9 in this order, and every one
    after them the null pointer. *)
Theorem pool_of_ten_instances (pbs : list (Z * Z)) (pins : Z → Z → bool) :
  (create_many pbs (start pins)).1 =
    (Some <$> seq 0 (Nat.min (length pbs) 10)) ++ replicate (length pbs - 10) None.
Proof.
  rewrite (create_many_from 0 pbs (start pins) (in_use_up_to_start pins));
    [done | unfold MAX_GPIO_INSTANCES; lia].
Qed.

End GpioFacts.
